(** * rxooks: hooks bridging asynchronous sources into component state

    A shallow embedding of [src/index.ts]: [useSubscription],
    [useAsyncValues] and [useObservableState] together with the helpers
    [isPromiseLike] and [isFunction].

    JavaScript values are a small tagged union, closures over mutable
    variables become explicit state passing on records, exceptions are a
    completion type, and the asynchronous parts (promise reactions, stream
    emissions, renders) are events that an environment feeds, one at a
    time, to a step function: the runtime is single-threaded. *)

From Stdlib Require Import ZArith String.
From stdpp Require Import base option list gmap.

Open Scope Z_scope.

(** ** JavaScript values *)

(** A callable: a function of the application, named by a number and
    interpreted by the environment, or the [then] method read off a
    promise. *)
Inductive fn : Type :=
| UserFn (f : nat)
| ThenOf (p : nat).

Inductive value : Type :=
| VUndefined
| VNull
| VBool (b : bool)
| VNum (n : Z)
| VStr (s : string)
| VObj (o : nat)          (* an object with no callable [then] *)
| VPromise (p : nat)      (* a promise: its [then] is the language's *)
| VFun (f : fn).

#[global] Instance fn_eq_dec : EqDecision fn.
Proof. solve_decision. Defined.

#[global] Instance value_eq_dec : EqDecision value.
Proof. solve_decision. Defined.

(** The strings the [typeof] operator can answer on these values. *)
Inductive jstype : Type :=
| TUndefined | TObject | TBoolean | TNumber | TString | TFunction.

#[global] Instance jstype_eq_dec : EqDecision jstype.
Proof. solve_decision. Defined.

Definition typeof (v : value) : jstype :=
  match v with
  | VUndefined => TUndefined
  | VNull => TObject
  | VBool _ => TBoolean
  | VNum _ => TNumber
  | VStr _ => TString
  | VObj _ => TObject
  | VPromise _ => TObject
  | VFun _ => TFunction
  end.

(** What can be thrown. *)
Inductive error : Type :=
| TypeError
| Thrown (v : value).

(** The outcome of evaluating an expression or a call. *)
Inductive completion (A : Type) : Type :=
| Normal (a : A)
| Throw (e : error).
Arguments Normal {A} a.
Arguments Throw {A} e.

(** Reading [value.then]: a [TypeError] on [null] and [undefined], the
    method on a promise, [undefined] on everything else. *)
Definition get_then (v : value) : completion value :=
  match v with
  | VUndefined | VNull => Throw TypeError
  | VPromise p => Normal (VFun (ThenOf p))
  | _ => Normal VUndefined
  end.

(** [isFunction], index.ts:131. *)
Definition isFunction (v : value) : bool :=
  bool_decide (typeof v = TFunction).

(** [isPromiseLike], index.ts:127. The conjunction is short-circuit: the
    property is read only when [typeof value === 'object']. *)
Definition isPromiseLike (v : value) : completion bool :=
  if bool_decide (typeof v = TObject) then
    match get_then v with
    | Normal t => Normal (isFunction t)
    | Throw e => Throw e
    end
  else Normal false.

(** [Object.is] on these values: numbers are integers here and objects,
    promises and functions are compared by reference. *)
Definition object_is (a b : value) : bool := bool_decide (a = b).

(** ** The host framework's primitives *)

Module React.

(** Modelled from the spec: React's comparison of two dependency lists is
    not under src/. It is shallow and position-wise: the entries at the
    same position are compared with [Object.is], over the positions both
    lists have. *)
Fixpoint areHookInputsEqual (nextDeps prevDeps : list value) : bool :=
  match nextDeps, prevDeps with
  | n :: nextDeps', p :: prevDeps' =>
      if object_is n p then areHookInputsEqual nextDeps' prevDeps' else false
  | _, _ => true
  end.

(** A missing list ([deps] is optional) counts as changed at each render. *)
Definition inputs_changed (nextDeps prevDeps : option (list value)) : bool :=
  match nextDeps, prevDeps with
  | Some n, Some p => negb (areHookInputsEqual n p)
  | _, _ => true
  end.

Section Effect.
Context {W : Type}.

(** An effect runs on the world and hands back its teardown closure. *)
Definition destructor : Type := W -> W.
Definition effect : Type := W -> destructor * W.

(** What the framework remembers of an effect between two renders. *)
Record effect_hook : Type := EffectHook {
  memo_deps : option (list value);
  memo_destroy : destructor;
}.

(** Modelled from the spec: React's [useEffect] is not under src/. The
    effect runs after the first render; after a later render whose
    dependency list changed, the remembered teardown runs and then the
    effect runs again; otherwise nothing runs. [None] is a component
    that is not mounted. *)
Definition useEffect (create : effect) (deps : option (list value))
    (hook : option effect_hook) (w : W) : option effect_hook * W :=
  match hook with
  | None =>
      let '(destroy, w') := create w in
      (Some (EffectHook deps destroy), w')
  | Some h =>
      if inputs_changed deps (memo_deps h) then
        let w1 := memo_destroy h w in
        let '(destroy, w2) := create w1 in
        (Some (EffectHook deps destroy), w2)
      else (Some (EffectHook deps (memo_destroy h)), w)
  end.

(** Modelled from the spec: unmounting runs the remembered teardown. *)
Definition unmount (hook : option effect_hook) (w : W)
    : option effect_hook * W :=
  match hook with
  | None => (None, w)
  | Some h => (None, memo_destroy h w)
  end.
End Effect.
Arguments effect_hook : clear implicits.
Arguments destructor : clear implicits.
Arguments effect : clear implicits.

(** The render state of one component: the slot of its [useState] and the
    number of times the setter has changed the state so far; React
    renders the component again after a change. The slot is empty while
    the component is not mounted. *)
Record render_state : Type := RenderState {
  memoizedState : option value;
  updates : nat;
}.

Section State.
(** The functions of the application: [call f x] is what the function
    named [f] does on the argument [x]. *)
Variable call : nat -> value -> completion value.

(** A call of a value by the framework: only a function of the
    application can be called. *)
Definition invoke (callee : value) (arg : value) : completion value :=
  match callee with
  | VFun (UserFn f) => call f arg
  | _ => Throw TypeError
  end.

(** Modelled from the spec: how React reads what the setter of [useState]
    is given is not under src/. A function is an updater, called on the
    state; anything else is the next state. *)
Definition basicStateReducer (state : value) (action : value)
    : completion value :=
  if isFunction action then invoke action state else Normal action.

(** Modelled from the spec: React's [useState] is not under src/. The
    initial value is used by the first render only, and a function given
    as initial value is called, without argument, for the initial state;
    later renders read the slot. When the initializer throws, the render
    throws and the slot stays empty. *)
Definition useState (initialState : value) (r : render_state)
    : completion value * render_state :=
  match memoizedState r with
  | Some v => (Normal v, r)
  | None =>
      match (if isFunction initialState
             then invoke initialState VUndefined
             else Normal initialState) with
      | Normal v => (Normal v, RenderState (Some v) (updates r))
      | Throw e => (Throw e, r)
      end
  end.

(** Modelled from the spec: the setter that [useState] returns is not
    under src/. It computes the next state with [basicStateReducer]; a
    next state that [Object.is] the current one changes nothing, any
    other one overwrites the slot; on a component that is not mounted
    the setter does nothing. The setter itself never throws: [Throw]
    stands for an updater that threw, which React throws again when it
    renders the component next. *)
Definition setState (action : value) (r : render_state)
    : completion render_state :=
  match memoizedState r with
  | None => Normal r
  | Some state =>
      match basicStateReducer state action with
      | Normal v =>
          Normal (if object_is v state then r
                  else RenderState (Some v) (S (updates r)))
      | Throw e => Throw e
      end
  end.
End State.

End React.

(** ** useSubscription *)

(** The [Unsubscribable] interface: one method, run for its effect. *)
Record Unsubscribable (W : Type) : Type := MkUnsubscribable {
  unsubscribe : W -> W;
}.
Arguments MkUnsubscribable {W} _.
Arguments unsubscribe {W} _ _.

(** [useSubscription], index.ts:19. *)
Definition useSubscription {W : Type}
    (subscribe : W -> Unsubscribable W * W) (deps : option (list value))
    : option (React.effect_hook W) -> W -> option (React.effect_hook W) * W :=
  React.useEffect
    (fun w =>
       let '(subscription, w') := subscribe w in
       (fun w'' => unsubscribe subscription w'', w'))
    deps.

(** *** A component that records the calls it receives *)

Module Lifecycle.

(** The calls the hook makes on the application: the [k]-th call of the
    setup function, and [unsubscribe] on the handle that call returned. *)
Inductive call : Type :=
| Setup (k : nat)
| Release (k : nat).

#[global] Instance call_eq_dec : EqDecision call.
Proof. solve_decision. Defined.

Definition is_setup (c : call) : bool :=
  match c with Setup _ => true | Release _ => false end.

(** A setup function that appends itself to the log and returns a handle
    whose [unsubscribe] appends itself too. *)
Definition probe (log : list call) : Unsubscribable (list call) * list call :=
  let k := length (List.filter is_setup log) in
  (MkUnsubscribable (fun l => l ++ [Release k]), log ++ [Setup k]).

(** What happens to a component: it renders (the first render mounts it)
    with a dependency list, or it is unmounted. *)
Inductive phase : Type :=
| Render (deps : option (list value))
| Unmount.

Definition component : Type :=
  (option (React.effect_hook (list call)) * list call)%type.

Definition step (c : component) (ph : phase) : component :=
  match ph with
  | Render deps => useSubscription probe deps (fst c) (snd c)
  | Unmount => React.unmount (fst c) (snd c)
  end.

Definition run (phases : list phase) (c : component) : component :=
  fold_left step phases c.

Definition unmounted : component := (None, []).

(** The number of renders of [ds] whose list differs from the one of the
    render before, [prev] being the list of the render before the first. *)
Fixpoint changes (prev : list value) (ds : list (list value)) : nat :=
  match ds with
  | [] => 0
  | d :: ds' =>
      ((if React.areHookInputsEqual d prev then 0 else 1) + changes d ds')%nat
  end.

(** Setup and release of the handles [0 .. n-1], each released before the
    next is set up. *)
Definition cycles (n : nat) : list call :=
  flat_map (fun k => [Setup k; Release k]) (seq 0 n).
Arguments cycles : simpl never.

(** A mounted component whose live handle is the [n]-th, last rendered
    with the list [prev]. *)
Definition live (n : nat) (prev : list value) (c : component) : Prop :=
  fst c = Some (React.EffectHook (Some prev) (fun l => l ++ [Release n]))
  /\ snd c = cycles n ++ [Setup n].

End Lifecycle.

(** ** useObservableState: the mutable cell *)

Module Cell.

(** How a promise ends. *)
Inductive settlement : Type :=
| Fulfilled (v : value)
| Rejected (e : error).

(** The variables the closures of index.ts:93-119 share: [currentValue]
    and the [Set] of subscribers. A JavaScript [Set] is iterated in
    insertion order and holds no duplicate, so it is a list here. *)
Record closure : Type := Closure {
  currentValue : value;
  subscribers : list nat;
}.

(** Everything a call on the cell can read or change: the closure, the
    notifications the subscribers have been handed (oldest first), the
    promises (which have settled, on which [setValue] waits, and the
    reaction jobs ready to run, oldest first), and the render state of the
    owning component. *)
Record world : Type := World {
  cell : closure;
  next_subscriber : nat;
  delivered : list (nat * value);
  settled : gmap nat settlement;
  reactions : list nat;
  jobs : list value;
  host : React.render_state;
}.

Definition set_cell (c : closure) (w : world) : world :=
  World c (next_subscriber w) (delivered w) (settled w) (reactions w)
        (jobs w) (host w).

Definition set_delivered (d : list (nat * value)) (w : world) : world :=
  World (cell w) (next_subscriber w) d (settled w) (reactions w)
        (jobs w) (host w).

Definition set_reactions (r : list nat) (w : world) : world :=
  World (cell w) (next_subscriber w) (delivered w) (settled w) r
        (jobs w) (host w).

Definition set_jobs (j : list value) (w : world) : world :=
  World (cell w) (next_subscriber w) (delivered w) (settled w) (reactions w)
        j (host w).

(** [useObservableState], index.ts:87-125: the first render builds the
    closure around [initialValue] and keeps it in [stateRef]; every later
    render returns what [stateRef] holds and ignores its argument. *)
Definition useObservableState (initialValue : value)
    (stateRef : option closure) : closure :=
  match stateRef with
  | None => Closure initialValue []
  | Some current => current
  end.

(** The world right after the first render of the owning component, whose
    render state is [r]: no subscriber, no promise met yet. *)
Definition create (initialValue : value) (r : React.render_state) : world :=
  World (useObservableState initialValue None) 0 [] ∅ [] [] r.

(** [getValue], index.ts:113. *)
Definition getValue (w : world) : value := currentValue (cell w).

(** Modelled from the spec: the handler that [subscriber.next(value)]
    runs is the application's, not under src/. The subscriber is handed
    the value, and that is all the cell sees of it: the handler does not
    call the setter or unsubscribe anybody while it is being notified
    (the subscriber set is mutated by the cell alone). *)
Definition next (value : value) (w : world) (subscriber : nat) : world :=
  set_delivered (delivered w ++ [(subscriber, value)]) w.

(** [Set.prototype.add] and [Set.prototype.delete]. *)
Definition set_add (s : nat) (l : list nat) : list nat :=
  if bool_decide (s ∈ l) then l else l ++ [s].

Definition set_delete (s : nat) (l : list nat) : list nat :=
  filter (fun x => x ≠ s) l.

(** Modelled from the spec: [Promise.prototype.then] is the language's,
    not under src/. [result.then(setValue)] on a promise, a deferred
    value that resolves to one value or fails, once: the reaction waits
    while the promise is pending, is queued as a job if the promise is
    fulfilled, and is dropped if it is rejected (no rejection handler is
    passed). The reaction never runs inside the call to [then]. An
    object that only looks like a promise, with a [then] of its own
    making, is not a value of this model. *)
Definition then_setValue (p : nat) (w : world) : world :=
  match settled w !! p with
  | None => set_reactions (reactions w ++ [p]) w
  | Some (Fulfilled v) => set_jobs (jobs w ++ [v]) w
  | Some (Rejected _) => w
  end.

Section WithFunctions.
(** The functions of the application: [call f x] is what the function
    named [f] does on the argument [x]. Transformations are pure. *)
Variable call : nat -> value -> completion value.

(** [value(currentValue)]. The [then] method of a promise called as a
    plain function has no receiver. *)
Definition apply (f : fn) (arg : value) : completion value :=
  match f with
  | UserFn n => call n arg
  | ThenOf _ => Throw TypeError
  end.

(** A call [callee(arg)]: calling what is not a function throws. *)
Definition invoke (callee : value) (arg : value) : completion value :=
  match callee with
  | VFun f => apply f arg
  | _ => Throw TypeError
  end.

(** [result.then(setValue)], index.ts:101: on a promise the reaction is
    registered as [then_setValue] says; the [then] of a value that has
    no callable [then] cannot be called. *)
Definition invoke_then (result : value) (w : world)
    : completion unit * world :=
  match result with
  | VPromise p => (Normal (), then_setValue p w)
  | _ => (Throw TypeError, w)
  end.

(** [setValue], index.ts:97-111. The recursion of the source is not
    bounded (a transformation may return a function); [fuel] bounds the
    depth of the calls and [None] is a call stack that ran out. An
    exception leaves through [Throw]; every write comes after the last
    point that can throw. *)
Fixpoint setValue (fuel : nat) (value : value) (w : world)
    : option (completion unit * world) :=
  match fuel with
  | O => None
  | S fuel' =>
      if isFunction value then
        match invoke value (currentValue (cell w)) with
        | Throw e => Some (Throw e, w)
        | Normal result =>
            match isPromiseLike result with
            | Throw e => Some (Throw e, w)
            | Normal true => Some (invoke_then result w)
            | Normal false => setValue fuel' result w
            end
        end
      else
        let w1 := set_cell (Closure value (subscribers (cell w))) w in
        Some (Normal (), fold_left (next value) (subscribers (cell w)) w1)
  end.

(** The subscribe function of the observable, index.ts:115-119, run for
    a new subscriber: it answers the subscriber's name and the world. *)
Definition subscribe (w : world) : nat * world :=
  let subscriber := next_subscriber w in
  let w1 := next (currentValue (cell w)) w subscriber in
  let w2 :=
    set_cell (Closure (currentValue (cell w1))
                      (set_add subscriber (subscribers (cell w1)))) w1 in
  (subscriber,
   World (cell w2) (S subscriber) (delivered w2) (settled w2)
         (reactions w2) (jobs w2) (host w2)).

(** The teardown that [subscribe] returns. *)
Definition teardown (subscriber : nat) (w : world) : world :=
  set_cell (Closure (currentValue (cell w))
                    (set_delete subscriber (subscribers (cell w)))) w.

(** A pending promise settles: its waiting reactions become jobs when
    it is fulfilled and are dropped when it is rejected. A promise
    settles once. *)
Definition settle (p : nat) (s : settlement) (w : world) : world :=
  match settled w !! p with
  | Some _ => w
  | None =>
      let waiting := filter (fun q => q = p) (reactions w) in
      let ready :=
        match s with
        | Fulfilled v => map (fun _ => v) waiting
        | Rejected _ => []
        end in
      World (cell w) (next_subscriber w) (delivered w)
            (<[p := s]> (settled w))
            (filter (fun q => q ≠ p) (reactions w))
            (jobs w ++ ready) (host w)
  end.

(** The oldest reaction job runs: [setValue] on the fulfilment value.
    An exception in a job rejects a promise nobody holds. *)
Definition run_job (fuel : nat) (w : world) : option world :=
  match jobs w with
  | [] => Some w
  | v :: js =>
      match setValue fuel v (set_jobs js w) with
      | Some (_, w') => Some w'
      | None => None
      end
  end.

(** What the environment does to a cell. *)
Inductive event : Type :=
| Calls (v : value)                     (* [setValue(v)] *)
| Subscribes                            (* [observable.subscribe(..)] *)
| Unsubscribes (subscriber : nat)
| Settles (p : nat) (s : settlement)
| RunsJob.

Definition step (fuel : nat) (w : world) (ev : event) : option world :=
  match ev with
  | Calls v =>
      match setValue fuel v w with
      | Some (_, w') => Some w'
      | None => None
      end
  | Subscribes => Some (snd (subscribe w))
  | Unsubscribes s => Some (teardown s w)
  | Settles p s => Some (settle p s w)
  | RunsJob => run_job fuel w
  end.

Fixpoint run (fuel : nat) (evs : list event) (w : world) : option world :=
  match evs with
  | [] => Some w
  | ev :: evs' =>
      match step fuel w ev with
      | Some w' => run fuel evs' w'
      | None => None
      end
  end.

(** The notifications one subscriber was handed, oldest first. *)
Definition received (subscriber : nat) (w : world) : list value :=
  map snd (filter (fun d => fst d = subscriber) (delivered w)).
End WithFunctions.

(** *** Vocabulary of the properties *)

(** The world once [v] has been stored and handed to every subscriber. *)
Definition stored (v : value) (w : world) : world :=
  World (Closure v (subscribers (cell w))) (next_subscriber w)
        (delivered w ++ map (fun s => (s, v)) (subscribers (cell w)))
        (settled w) (reactions w) (jobs w) (host w).

(** The world without the reactions that wait on the promise [p]. *)
Definition forget (p : nat) (w : world) : world :=
  set_reactions (filter (fun q => q ≠ p) (reactions w)) w.

(** Two worlds that differ at most in the reactions waiting on [p], and
    not at all once [p] has settled. *)
Definition alike (p : nat) (w1 w2 : world) : Prop :=
  forget p w1 = forget p w2 /\ (settled w1 !! p <> None -> w1 = w2).

Definition alike_opt (p : nat) (o1 o2 : option world) : Prop :=
  match o1, o2 with
  | Some w1, Some w2 => alike p w1 w2
  | None, None => True
  | _, _ => False
  end.

Definition is_call (ev : event) : bool :=
  match ev with Calls _ => true | _ => false end.

Definition fulfils (p : nat) (ev : event) : bool :=
  match ev with
  | Settles q (Fulfilled _) => bool_decide (q = p)
  | _ => false
  end.

(** Subscribers are numbered in the order they subscribe: every
    subscriber met so far has a number below the next one. *)
Definition numbered (w : world) : Prop :=
  Forall (fun d => (fst d < next_subscriber w)%nat) (delivered w)
  /\ Forall (fun s => (s < next_subscriber w)%nat) (subscribers (cell w)).

End Cell.

(** ** useAsyncValues *)

Module AsyncValues.

(** What the hook can see of an async source when it subscribes: the
    values its normalized stream emits synchronously, inside the call to
    [subscribe]. Everything the source produces later is an event. *)
Record ObservableInput : Type := Source {
  emits_on_subscribe : list value;
}.

(** The optional third argument. *)
Record config : Type := Config {
  initialValue : option value;
}.

(** [config?.initialValue]. *)
Definition initial_of (cfg : option config) : value :=
  match cfg with
  | Some c => default VUndefined (initialValue c)
  | None => VUndefined
  end.

(** The render state of the component and the subscriptions made so far:
    they are numbered in the order they are made, and [closed] holds the
    ones that were unsubscribed. *)
Record world : Type := World {
  render : React.render_state;
  next_subscription : nat;
  closed : gset nat;
}.

(** Modelled from the spec: [Subscription.unsubscribe] of the
    reactive-stream library is not under src/. *)
Definition close (sid : nat) (w : world) : world :=
  World (render w) (next_subscription w) ({[sid]} ∪ closed w).

(** A component that calls the hook: what the framework remembers of the
    effect, and the world. *)
Record component : Type := Component {
  hook : option (React.effect_hook world);
  state : world;
}.

(** What happens to the component: it renders (the first render mounts
    it), its subscription [sid] is handed a value by its source, or it is
    unmounted, which runs the teardown and drops the render state. *)
Inductive event : Type :=
| Render (observed : ObservableInput) (deps : option (list value))
         (cfg : option config)
| Emit (sid : nat) (v : value)
| Unmount.

Section WithFunctions.
Variable call : nat -> value -> completion value.

(** Modelled from the spec: the subscriber of the reactive-stream library
    is not under src/. It hands a value to its consumer, here the setter
    of [useState], unless its subscription was unsubscribed: teardown
    stops the forwarding, it does not stop the source. When the value is
    an updater that throws, React throws at the render that follows and
    takes the component down, which runs the teardown of the hook: the
    state is dropped and the subscription closed, here at once. *)
Definition subscriber_next (sid : nat) (v : value) (w : world) : world :=
  if bool_decide (sid ∈ closed w) then w
  else
    match React.setState call v (render w) with
    | Normal r => World r (next_subscription w) (closed w)
    | Throw _ =>
        World (React.RenderState None (React.updates (render w)))
              (next_subscription w) ({[sid]} ∪ closed w)
    end.

(** [from(observed()).subscribe(setValue)], index.ts:73. *)
Definition from_subscribe (observed : ObservableInput) (w : world)
    : Unsubscribable world * world :=
  let sid := next_subscription w in
  let w1 := World (render w) (S sid) (closed w) in
  (MkUnsubscribable (close sid),
   fold_left (fun w' v => subscriber_next sid v w')
             (emits_on_subscribe observed) w1).

(** [useAsyncValues], index.ts:67-75: the value the render returns, and
    the component once the effect of that render has been committed.
    When [useState] throws, the render throws and nothing is committed. *)
Definition useAsyncValues (observed : ObservableInput)
    (deps : option (list value)) (cfg : option config) (c : component)
    : completion value * component :=
  match React.useState call (initial_of cfg) (render (state c)) with
  | (Throw e, _) => (Throw e, c)
  | (Normal value, r) =>
      let w1 := World r (next_subscription (state c)) (closed (state c)) in
      let '(hook', w2) :=
        useSubscription (from_subscribe observed) deps (hook c) w1 in
      (Normal value, Component hook' w2)
  end.

(** A component whose state was dropped is not mounted any more. *)
Definition take_down (c : component) : component :=
  match React.memoizedState (render (state c)) with
  | Some _ => c
  | None => Component None (state c)
  end.

Definition step (c : component) (ev : event) : component :=
  match ev with
  | Render observed deps cfg =>
      take_down (snd (useAsyncValues observed deps cfg c))
  | Emit sid v =>
      if bool_decide (sid < next_subscription (state c))%nat
      then take_down (Component (hook c) (subscriber_next sid v (state c)))
      else c
  | Unmount =>
      let '(hook', w) := React.unmount (hook c) (state c) in
      Component hook'
        (World (React.RenderState None (React.updates (render w)))
               (next_subscription w) (closed w))
  end.

Definition run (evs : list event) (c : component) : component :=
  fold_left step evs c.
End WithFunctions.

Definition unmounted : component :=
  Component None (World (React.RenderState None 0) 0 ∅).

(** The value a render of the component returns, whatever the arguments
    of that render, once it is mounted. *)
Definition returned (c : component) : option value :=
  React.memoizedState (render (state c)).

(** *** The behaviour in the words of the specification *)

(** The streams as the specification sees them: whether the component is
    mounted (and with which dependency list it rendered last), how many
    streams it has subscribed to so far (the current one is the last),
    the initial value configured when it was mounted, the values emitted
    since it was mounted by a stream that was the current one when it
    emitted, and those among them that the current stream emitted. *)
Record view : Type := View {
  mounted_deps : option (option (list value));
  streams : nat;
  configured : value;
  heard : list value;
  heard_current : list value;
}.

Definition view_step (s : view) (ev : event) : view :=
  match ev with
  | Render observed deps cfg =>
      match mounted_deps s with
      | None =>
          View (Some deps) (S (streams s)) (initial_of cfg)
               (emits_on_subscribe observed) (emits_on_subscribe observed)
      | Some prev =>
          if React.inputs_changed deps prev
          then View (Some deps) (S (streams s)) (configured s)
                    (heard s ++ emits_on_subscribe observed)
                    (emits_on_subscribe observed)
          else View (Some deps) (streams s) (configured s)
                    (heard s) (heard_current s)
      end
  | Emit sid v =>
      match mounted_deps s with
      | Some _ =>
          if bool_decide (S sid = streams s)
          then View (mounted_deps s) (streams s) (configured s)
                    (heard s ++ [v]) (heard_current s ++ [v])
          else s
      | None => s
      end
  | Unmount => View None (streams s) (configured s) [] []
  end.

Definition view_run (evs : list event) (s : view) : view :=
  fold_left view_step evs s.

Definition no_view : view := View None 0 VUndefined [] [].

(** The most recent of the values [vs], or [d] when there is none. *)
Definition most_recent (d : value) (vs : list value) : value :=
  List.last vs d.

(** The component does what the view says. *)
Record agrees (c : component) (s : view) : Prop := Agrees {
  agrees_hook :
    hook c = match mounted_deps s with
             | Some deps => Some (React.EffectHook deps (close (pred (streams s))))
             | None => None
             end;
  agrees_slot :
    React.memoizedState (render (state c)) =
      match mounted_deps s with
      | Some _ => Some (most_recent (configured s) (heard s))
      | None => None
      end;
  agrees_next : next_subscription (state c) = streams s;
  agrees_closed : forall sid,
    sid ∈ closed (state c) <->
    match mounted_deps s with
    | Some _ => (S sid < streams s)%nat
    | None => (sid < streams s)%nat
    end;
  agrees_mounted : mounted_deps s <> None -> (0 < streams s)%nat;
  agrees_current : exists earlier, heard s = earlier ++ heard_current s;
}.

(** Whether an event tears the current subscription down. *)
Definition tears_down (c : component) (ev : event) : bool :=
  match ev with
  | Unmount => true
  | Render _ deps _ =>
      match hook c with
      | Some h => React.inputs_changed deps (React.memo_deps h)
      | None => false
      end
  | Emit _ _ => false
  end.

(** The values the stream [sid] was handed by its source in a trace. *)
Definition produced (sid : nat) (evs : list event) : list value :=
  omap (fun ev => match ev with
                  | Emit s v => if bool_decide (s = sid) then Some v else None
                  | _ => None
                  end) evs.

(** A trace without the values a given stream produces. *)
Definition is_emit_of (sid : nat) (ev : event) : bool :=
  match ev with
  | Emit s _ => bool_decide (s = sid)
  | _ => false
  end.

Fixpoint without (sid : nat) (evs : list event) : list event :=
  match evs with
  | [] => []
  | ev :: evs' =>
      if is_emit_of sid ev then without sid evs' else ev :: without sid evs'
  end.

(** An event that carries no function: neither the initial value nor a
    value a stream emits is one. *)
Definition plain_event (ev : event) : bool :=
  match ev with
  | Render observed _ cfg =>
      negb (isFunction (initial_of cfg))
      && forallb (fun v => negb (isFunction v)) (emits_on_subscribe observed)
  | Emit _ v => negb (isFunction v)
  | Unmount => true
  end.

(** The shape every component keeps: not mounted, with an empty slot and
    every subscription closed; or mounted, with a filled slot, the
    teardown of the last subscription remembered, and every subscription
    but the last closed. *)
Definition shaped (c : component) : Prop :=
  match hook c with
  | None =>
      React.memoizedState (render (state c)) = None
      /\ forall sid,
          sid ∈ closed (state c) <-> (sid < next_subscription (state c))%nat
  | Some h =>
      React.memo_destroy h = close (pred (next_subscription (state c)))
      /\ is_Some (React.memoizedState (render (state c)))
      /\ (0 < next_subscription (state c))%nat
      /\ forall sid,
          sid ∈ closed (state c) <-> (S sid < next_subscription (state c))%nat
  end.

End AsyncValues.

(** ** Vocabulary of further properties *)

(** The call log of a component is well bracketed: the handles [0 .. n-1]
    were set up and released in turn, and either the component is not
    mounted, or it is mounted and the handle [n] is set up and not yet
    released. *)
Definition bracketed (c : Lifecycle.component) : Prop :=
  exists n,
    (fst c = None /\ snd c = Lifecycle.cycles n)
    \/ ((exists deps,
           fst c = Some (React.EffectHook deps
                           (fun l => l ++ [Lifecycle.Release n])))
        /\ snd c = Lifecycle.cycles n ++ [Lifecycle.Setup n]).

(** A value that the setter stores when a transformation returns it:
    not [null], not a promise, not a function. *)
Definition plain (v : value) : bool :=
  match v with
  | VNull | VPromise _ | VFun _ => false
  | _ => true
  end.

(** The values [g x], [g (g x)], ... that [k] successive applications of
    [g] go through. *)
Fixpoint iterates (g : value -> value) (x : value) (k : nat) : list value :=
  match k with
  | O => []
  | S k' => g x :: iterates g (g x) k'
  end.

(** ** The two hooks wired together *)

(** The component of the test suite (index.test.tsx, "useObservableState")
    and of the README:
      [const [values, setValue] = useObservableState(init);]
      [const value = useAsyncValues(() => values, [values]);]
    The effect of [useAsyncValues] subscribes to the observable of the
    cell, and the subscriber it registers there hands what it receives to
    the setter of [useState]. *)
Module Wired.

(** The cell, the component state of [useAsyncValues], and the name the
    subscriber of the hook has in the cell. *)
Record app : Type := App {
  store : Cell.world;
  shown : AsyncValues.component;
  subscriber : nat;
}.

(** [[values]]: the observable is kept in [stateRef], so every render
    passes the same object. *)
Definition deps : option (list value) := Some [VObj 0].

(** What the cell has handed to the subscriber [s] between two worlds. *)
Definition handed (s : nat) (before after : Cell.world) : list value :=
  drop (length (Cell.received s before)) (Cell.received s after).

(** What happens to the component: something happens to the cell, or the
    component renders again. *)
Inductive event : Type :=
| OnCell (ev : Cell.event)
| Rerender.

Section WithFunctions.
Variable call : nat -> value -> completion value.

(** The first render and its effect: the hook subscribes to the cell, and
    what the cell hands over inside [subscribe] is what the stream emits
    synchronously. *)
Definition mount (init : value) (r : React.render_state) : app :=
  let w := Cell.create init r in
  let '(s, w') := Cell.subscribe w in
  App w'
      (AsyncValues.step call AsyncValues.unmounted
         (AsyncValues.Render (AsyncValues.Source (handed s w w')) deps None))
      s.

(** An event of the cell, followed by the forwarding of what the
    subscriber of the hook was handed during it; or a later render, with
    the same dependency list: its effect, if it ran, would subscribe to
    the cell again. *)
Definition step (fuel : nat) (a : app) (ev : event) : option app :=
  match ev with
  | OnCell ev' =>
      match Cell.step call fuel (store a) ev' with
      | Some w' =>
          Some (App w'
                  (AsyncValues.run call
                     (map (AsyncValues.Emit 0)
                          (handed (subscriber a) (store a) w'))
                     (shown a))
                  (subscriber a))
      | None => None
      end
  | Rerender =>
      Some (App (store a)
              (AsyncValues.step call (shown a)
                 (AsyncValues.Render
                    (AsyncValues.Source [Cell.getValue (store a)])
                    deps None))
              (subscriber a))
  end.

Fixpoint run (fuel : nat) (evs : list event) (a : app) : option app :=
  match evs with
  | [] => Some a
  | ev :: evs' =>
      match step fuel a ev with
      | Some a' => run fuel evs' a'
      | None => None
      end
  end.
End WithFunctions.

(** The environment does not unsubscribe the subscriber of the hook: only
    the teardown of the hook does, and the component stays mounted. *)
Definition keeps_hook (s : nat) (ev : event) : bool :=
  match ev with
  | OnCell (Cell.Unsubscribes s') => negb (bool_decide (s' = s))
  | _ => true
  end.

(** The wiring is in place: the subscriber of the hook is in the cell,
    the cell does not hold a function, and the state of the hook holds
    the current value of the cell behind its one open subscription. *)
Definition wired (a : app) : Prop :=
  NoDup (Cell.subscribers (Cell.cell (store a)))
  /\ subscriber a ∈ Cell.subscribers (Cell.cell (store a))
  /\ (subscriber a < Cell.next_subscriber (store a))%nat
  /\ isFunction (Cell.getValue (store a)) = false
  /\ exists u,
      shown a
      = AsyncValues.Component
          (Some (React.EffectHook deps (AsyncValues.close 0)))
          (AsyncValues.World
             (React.RenderState (Some (Cell.getValue (store a))) u) 1 ∅).

End Wired.

(** * Properties *)

(** ** The lifecycle of useSubscription *)

Section LifecycleFacts.
Import Lifecycle.

Lemma setups_cycles n : length (List.filter is_setup (cycles n)) = n.
Proof.
  unfold cycles. generalize 0%nat.
  induction n as [|n IH]; intros s; simpl; [done|]. by rewrite IH.
Qed.

Lemma cycles_S n : cycles (S n) = cycles n ++ [Setup n; Release n].
Proof.
  unfold cycles. replace (S n) with (n + 1)%nat by lia.
  rewrite seq_app, flat_map_app. simpl. done.
Qed.

Lemma probe_live n log :
  length (List.filter is_setup log) = n ->
  probe log = (MkUnsubscribable (fun l => l ++ [Release n]), log ++ [Setup n]).
Proof. intros <-. reflexivity. Qed.

(** On lists of one length the comparison is equality of the lists. *)
Lemma areHookInputsEqual_same_length nextDeps : forall prevDeps,
  length nextDeps = length prevDeps ->
  React.areHookInputsEqual nextDeps prevDeps = true <-> nextDeps = prevDeps.
Proof.
  induction nextDeps as [|n ns IH]; intros [|q qs] Hlen; try done.
  cbn. unfold object_is. case_bool_decide as Hnq.
  - subst q. rewrite IH by (cbn in Hlen; lia). split; congruence.
  - split; [done|congruence].
Qed.

Lemma mount_live d : live 0 d (step unmounted (Render (Some d))).
Proof. split; reflexivity. Qed.

Lemma render_live n prev d c :
  live n prev c ->
  live (if React.areHookInputsEqual d prev then n else S n) d
       (step c (Render (Some d)))
  /\ snd (step c (Render (Some d))) =
     snd c ++ (if React.areHookInputsEqual d prev then []
               else [Release n; Setup (S n)]).
Proof.
  intros [Hh Hl]. destruct c as [h log]; simpl in *. subst h.
  unfold useSubscription, React.useEffect; simpl.
  destruct (React.areHookInputsEqual d prev); simpl.
  - rewrite app_nil_r. repeat split; done.
  - assert (Hk : length (List.filter is_setup (log ++ [Release n])) = S n).
    { subst log. rewrite <- app_assoc, List.filter_app, length_app.
      rewrite setups_cycles. simpl. lia. }
    unfold probe. rewrite Hk. simpl. subst log. unfold live. cbn [fst snd].
    rewrite cycles_S, <- !app_assoc. repeat split; done.
Qed.

Lemma renders_live ds : forall n prev c,
  live n prev c ->
  live (n + changes prev ds) (List.last ds prev)
       (run (map (fun d => Render (Some d)) ds) c).
Proof.
  induction ds as [|d ds IH]; intros n prev c Hc.
  - simpl. by rewrite Nat.add_0_r.
  - destruct (render_live n prev d c Hc) as [Hc' _].
    apply IH in Hc'. cbn [map run fold_left changes] in *.
    replace (List.last (d :: ds) prev) with (List.last ds d)
      by (clear; revert d; induction ds; intros; simpl; auto; destruct ds; auto).
    destruct (React.areHookInputsEqual d prev); simpl in *.
    + exact Hc'.
    + by replace (n + S (changes d ds))%nat with (S n + changes d ds)%nat by lia.
Qed.

Lemma unmount_live n prev c :
  live n prev c -> snd (step c Unmount) = cycles (S n).
Proof.
  intros [Hh Hl]. destruct c as [h log]; cbn [fst snd] in *. subst.
  unfold step, React.unmount. cbn [fst snd React.memo_destroy].
  by rewrite cycles_S, <- app_assoc.
Qed.
End LifecycleFacts.

(** C1. A component that renders with the dependency lists [d0], then
    [ds] in turn: the setup function is called at the first render and
    once more at each render whose list differs, position by position,
    from the list of the render before; [unsubscribe] is called once on
    the handle of each setup, before the next setup and, for the last
    handle, at unmount. The log of calls is therefore
    [Setup 0; Release 0; Setup 1; Release 1; ...]. *)
Theorem useSubscription_setup_release (d0 : list value) (ds : list (list value)) :
  let renders :=
    Lifecycle.Render (Some d0) :: map (fun d => Lifecycle.Render (Some d)) ds in
  let n := Lifecycle.changes d0 ds in
  snd (Lifecycle.run renders Lifecycle.unmounted)
    = Lifecycle.cycles n ++ [Lifecycle.Setup n]
  /\ snd (Lifecycle.run (renders ++ [Lifecycle.Unmount]) Lifecycle.unmounted)
    = Lifecycle.cycles (S n)
  /\ forall d,
      snd (Lifecycle.run (renders ++ [Lifecycle.Render (Some d)])
                         Lifecycle.unmounted)
      = snd (Lifecycle.run renders Lifecycle.unmounted)
        ++ (if React.areHookInputsEqual d (List.last ds d0) then []
            else [Lifecycle.Release n; Lifecycle.Setup (S n)]).
Proof.
  intros renders n.
  pose proof (renders_live ds 0 d0 _ (mount_live d0)) as Hlive.
  change (Lifecycle.live n (List.last ds d0) (Lifecycle.run renders Lifecycle.unmounted))
    in Hlive.
  split; [apply Hlive|]. split.
  - unfold Lifecycle.run. rewrite fold_left_app. simpl.
    apply (unmount_live n (List.last ds d0)), Hlive.
  - intros d. unfold Lifecycle.run. rewrite fold_left_app. simpl.
    apply (render_live n (List.last ds d0) d), Hlive.
Qed.

(** ** useAsyncValues against the view of the specification *)

Section AsyncFacts.
Import AsyncValues.
Variable call : nat -> value -> completion value.

Lemma most_recent_app d a b :
  most_recent d (a ++ b) = most_recent (most_recent d a) b.
Proof.
  unfold most_recent. revert d a.
  induction b as [|x b IH] using rev_ind; intros d a.
  - by rewrite app_nil_r.
  - by rewrite app_assoc, !List.last_last.
Qed.

Lemma most_recent_snoc d a v : most_recent d (a ++ [v]) = v.
Proof. apply List.last_last. Qed.

Local Opaque most_recent.

(** The setter given a value that is not a function: the value is the
    state afterwards. *)
Lemma setState_value v x u :
  isFunction v = false ->
  exists u', React.setState call v (React.RenderState (Some x) u)
             = Normal (React.RenderState (Some v) u').
Proof.
  intros Hv. unfold React.setState, React.basicStateReducer.
  cbn [React.memoizedState]. rewrite Hv. unfold object_is.
  case_bool_decide as Heq; [subst x|]; by eexists.
Qed.

Lemma subscriber_next_value sid v x u n cl :
  isFunction v = false -> sid ∉ cl ->
  exists u', subscriber_next call sid v (World (React.RenderState (Some x) u) n cl)
             = World (React.RenderState (Some v) u') n cl.
Proof.
  intros Hv Hsid. unfold subscriber_next. cbn [closed render next_subscription].
  rewrite bool_decide_eq_false_2 by done.
  destruct (setState_value v x u Hv) as [u' ->]. by exists u'.
Qed.

(** The values a stream emits inside [subscribe] reach the slot one
    after the other. *)
Lemma emits_on_subscribe_fold vs : forall sid x u n cl,
  forallb (fun v => negb (isFunction v)) vs = true ->
  sid ∉ cl ->
  exists u',
    fold_left (fun w' v => subscriber_next call sid v w') vs
              (World (React.RenderState (Some x) u) n cl)
    = World (React.RenderState (Some (most_recent x vs)) u') n cl.
Proof.
  induction vs as [|v vs IH]; intros sid x u n cl Hvs Hsid; [by exists u|].
  cbn in Hvs. apply andb_true_iff in Hvs as [Hv%negb_true_iff Hvs].
  cbn [fold_left].
  destruct (subscriber_next_value sid v x u n cl Hv Hsid) as [u1 ->].
  destruct (IH sid v u1 n cl Hvs Hsid) as [u' ->]. exists u'.
  by rewrite (most_recent_app x [v] vs : most_recent x (v :: vs) = _).
Qed.

(** What a subscriber does to a world, whatever it is handed: it leaves
    the numbering alone, and either the slot stays filled and nothing is
    closed, or the state is dropped and the subscription closed. *)
Lemma subscriber_next_shape sid v w :
  sid ∉ closed w -> is_Some (React.memoizedState (render w)) ->
  let w' := subscriber_next call sid v w in
  next_subscription w' = next_subscription w
  /\ (is_Some (React.memoizedState (render w')) /\ closed w' = closed w
      \/ React.memoizedState (render w') = None
         /\ closed w' = {[sid]} ∪ closed w).
Proof.
  intros Hsid [x Hx]. unfold subscriber_next.
  rewrite bool_decide_eq_false_2 by done.
  unfold React.setState. rewrite Hx.
  destruct (React.basicStateReducer call x v) as [y|e]; cbn.
  - split; [done|]. left. split; [|done].
    destruct (object_is y x); [by rewrite Hx|]; by eexists.
  - split; [done|]. by right.
Qed.

Lemma subscriber_next_closed sid v w :
  sid ∈ closed w -> subscriber_next call sid v w = w.
Proof. intros H. unfold subscriber_next. by rewrite bool_decide_eq_true_2. Qed.

Lemma emits_shape vs : forall sid w,
  sid ∉ closed w -> is_Some (React.memoizedState (render w)) ->
  let w' := fold_left (fun w' v => subscriber_next call sid v w') vs w in
  next_subscription w' = next_subscription w
  /\ (is_Some (React.memoizedState (render w')) /\ closed w' = closed w
      \/ React.memoizedState (render w') = None
         /\ closed w' = {[sid]} ∪ closed w).
Proof.
  induction vs as [|v vs IH]; intros sid w Hsid Hslot; [by auto|].
  cbn [fold_left].
  destruct (subscriber_next_shape sid v w Hsid Hslot) as [Hn [[Hs Hc]|[Hs Hc]]].
  - destruct (IH sid (subscriber_next call sid v w)) as [Hn' H'];
      [by rewrite Hc|done|].
    cbn zeta in *. rewrite Hn', Hn. split; [done|]. by rewrite Hc in H'.
  - assert (Hfix : forall l,
              fold_left (fun w' v => subscriber_next call sid v w') l
                        (subscriber_next call sid v w)
              = subscriber_next call sid v w).
    { induction l as [|y l IHl]; [done|]. cbn [fold_left].
      rewrite subscriber_next_closed; [done|]. rewrite Hc.
      apply elem_of_union. left. by apply elem_of_singleton. }
    cbn zeta. rewrite Hfix. split; [done|]. by right.
Qed.

Lemma agrees_unmounted : agrees unmounted no_view.
Proof.
  split; cbn; try done.
  - intros sid. split; [by intros ?%not_elem_of_empty | lia].
  - by exists [].
Qed.

(** The clauses of [agrees] that an event left as they were. *)
Local Ltac kept Emd Hm earlier :=
  split; cbn; rewrite ?Emd; try done;
  first [ by exists earlier | intros _; apply Hm; done ].

Lemma agrees_step c s ev :
  plain_event ev = true ->
  agrees c s -> agrees (step call c ev) (view_step s ev).
Proof.
  intros Hplain [Hh Hs Hn Hc Hm [earlier Hcur]].
  destruct c as [h [[slot u] n cl]]. cbn in Hh, Hs, Hn, Hc. subst n.
  destruct ev as [observed deps cfg|sid v|].
  - (* a render *)
    cbn in Hplain. apply andb_true_iff in Hplain as [Hinit%negb_true_iff Hemits].
    unfold step, view_step, useAsyncValues, useSubscription,
      React.useEffect, React.useState, from_subscribe.
    destruct (mounted_deps s) as [prev|] eqn:Emd; subst h slot; cbn.
    + destruct (React.inputs_changed deps prev) eqn:Ech; cbn.
      * assert (0 < streams s)%nat as Hpos by (apply Hm; done).
        edestruct (emits_on_subscribe_fold (emits_on_subscribe observed))
          as [u' ->]; [done| |].
        { rewrite elem_of_union, elem_of_singleton, Hc. lia. }
        unfold take_down. cbn.
        split; cbn; try done.
        -- by rewrite most_recent_app.
        -- intros sid. rewrite elem_of_union, elem_of_singleton, Hc. lia.
        -- intros _. lia.
        -- by exists (heard s).
      * unfold take_down. cbn. kept Emd Hm earlier.
    + rewrite Hinit.
      edestruct (emits_on_subscribe_fold (emits_on_subscribe observed))
        as [u' ->]; [done| |].
      { rewrite Hc. lia. }
      unfold take_down. cbn.
      split; cbn; try done.
      * intros sid. rewrite Hc. lia.
      * intros _. lia.
      * by exists [].
  - (* a value from a source *)
    cbn in Hplain. apply negb_true_iff in Hplain.
    cbn [step view_step state next_subscription hook].
    destruct (decide (sid < streams s)%nat) as [Hlt|Hlt].
    + rewrite (bool_decide_eq_true_2 (sid < streams s)%nat) by done.
      destruct (mounted_deps s) as [prev|] eqn:Emd.
      * destruct (decide (S sid = streams s)) as [Hlast|Hlast].
        -- rewrite (bool_decide_eq_true_2 (S sid = streams s)) by done.
           subst slot.
           edestruct (subscriber_next_value sid v) as [u' ->]; [done| |].
           { rewrite Hc. lia. }
           unfold take_down. cbn. split; cbn; rewrite ?Emd; try done.
           ++ by rewrite most_recent_snoc.
           ++ exists earlier. by rewrite Hcur, app_assoc.
        -- rewrite (bool_decide_eq_false_2 (S sid = streams s)) by done.
           rewrite subscriber_next_closed by (cbn; apply Hc; lia).
           subst slot. unfold take_down. cbn. kept Emd Hm earlier.
      * rewrite subscriber_next_closed by (cbn; apply Hc; lia).
        subst slot h. unfold take_down. cbn. kept Emd Hm earlier.
    + rewrite (bool_decide_eq_false_2 (sid < streams s)%nat) by done.
      destruct (mounted_deps s) as [prev|] eqn:Emd.
      * rewrite (bool_decide_eq_false_2 (S sid = streams s)) by lia.
        kept Emd Hm earlier.
      * kept Emd Hm earlier.
  - (* unmounting *)
    cbn [step view_step state hook].
    destruct (mounted_deps s) as [prev|] eqn:Emd; subst h.
    + assert (0 < streams s)%nat as Hpos by (apply Hm; done).
      cbn. split; cbn; try done.
      * intros sid. rewrite elem_of_union, elem_of_singleton, Hc. lia.
      * by exists [].
    + cbn. split; cbn; try done. by exists [].
Qed.

Lemma agrees_run evs : forall c s,
  forallb plain_event evs = true ->
  agrees c s -> agrees (run call evs c) (view_run evs s).
Proof.
  induction evs as [|ev evs IH]; intros c s Hplain H; [done|].
  cbn in Hplain. apply andb_true_iff in Hplain as [Hev Hevs].
  by apply IH, agrees_step.
Qed.

Lemma agrees_reachable evs :
  forallb plain_event evs = true ->
  agrees (run call evs unmounted) (view_run evs no_view).
Proof. intros H. by apply agrees_run, agrees_unmounted. Qed.

(** *** The shape of a component, whatever it is handed *)

Lemma shaped_unmounted : shaped unmounted.
Proof.
  split; [done|]. intros sid. cbn. split; [by intros ?%not_elem_of_empty|lia].
Qed.

(** A new subscription on a world with a filled slot where every earlier
    subscription is closed. *)
Lemma subscribe_shaped observed deps r n cl :
  is_Some (React.memoizedState r) ->
  (forall sid, sid ∈ cl <-> (sid < n)%nat) ->
  shaped (take_down
            (Component (Some (React.EffectHook deps (close n)))
               (snd (from_subscribe call observed (World r n cl)))))
  /\ next_subscription (snd (from_subscribe call observed (World r n cl))) = S n
  /\ cl ⊆ closed (snd (from_subscribe call observed (World r n cl))).
Proof.
  intros Hslot Hcl. unfold from_subscribe. cbn [snd next_subscription render closed].
  set (w1 := World r (S n) cl).
  destruct (emits_shape (emits_on_subscribe observed) n w1) as [Hn H].
  { cbn. rewrite Hcl. lia. }
  { done. }
  cbn zeta in Hn, H. cbn [next_subscription closed w1] in Hn, H.
  split; [|split; [done|]].
  - unfold take_down, shaped. cbn [state hook].
    destruct H as [[[x Hx] Hc]|[Hx Hc]]; rewrite Hx; cbn [hook state].
    + rewrite Hn, Hc. cbn. split; [done|]. split; [by eexists|].
      split; [lia|]. intros sid. rewrite Hcl. lia.
    + rewrite Hn, Hc. split; [done|]. intros sid.
      rewrite elem_of_union, elem_of_singleton, Hcl. lia.
  - destruct H as [[_ ->]|[_ ->]]; [done|]. apply union_subseteq_r.
Qed.

Lemma from_subscribe_eq observed w :
  from_subscribe call observed w
  = (MkUnsubscribable (close (next_subscription w)),
     snd (from_subscribe call observed w)).
Proof. reflexivity. Qed.

(** The render that subscribes again, and the render that mounts. *)
Lemma step_render_changed h r n cl observed deps cfg x k :
  React.memoizedState r = Some x ->
  React.inputs_changed deps (React.memo_deps h) = true ->
  React.memo_destroy h = close k ->
  step call (Component (Some h) (World r n cl)) (Render observed deps cfg)
  = take_down
      (Component (Some (React.EffectHook deps (close n)))
         (snd (from_subscribe call observed (World r n ({[k]} ∪ cl))))).
Proof.
  intros Hx Hch Hd.
  unfold step, useAsyncValues, React.useState, useSubscription, React.useEffect.
  cbn [state render hook next_subscription closed]. rewrite Hx, Hch, Hd.
  reflexivity.
Qed.

Lemma step_render_same h r n cl observed deps cfg x :
  React.memoizedState r = Some x ->
  React.inputs_changed deps (React.memo_deps h) = false ->
  step call (Component (Some h) (World r n cl)) (Render observed deps cfg)
  = Component (Some (React.EffectHook deps (React.memo_destroy h)))
              (World r n cl).
Proof.
  intros Hx Hch.
  unfold step, useAsyncValues, React.useState, useSubscription, React.useEffect.
  cbn [state render hook next_subscription closed]. rewrite Hx, Hch.
  cbn [snd]. unfold take_down. cbn [state render]. by rewrite Hx.
Qed.

Lemma step_render_mount r n cl observed deps cfg v :
  React.memoizedState r = None ->
  (if isFunction (initial_of cfg)
   then React.invoke call (initial_of cfg) VUndefined
   else Normal (initial_of cfg)) = Normal v ->
  step call (Component None (World r n cl)) (Render observed deps cfg)
  = take_down
      (Component (Some (React.EffectHook deps (close n)))
         (snd (from_subscribe call observed
                 (World (React.RenderState (Some v) (React.updates r)) n cl)))).
Proof.
  intros Hx Hinit.
  unfold step, useAsyncValues, React.useState, useSubscription, React.useEffect.
  cbn [state render hook next_subscription closed]. rewrite Hx, Hinit.
  reflexivity.
Qed.

Lemma step_render_throws r n cl observed deps cfg e :
  React.memoizedState r = None ->
  (if isFunction (initial_of cfg)
   then React.invoke call (initial_of cfg) VUndefined
   else Normal (initial_of cfg)) = Throw e ->
  step call (Component None (World r n cl)) (Render observed deps cfg)
  = Component None (World r n cl).
Proof.
  intros Hx Hinit.
  unfold step, useAsyncValues, React.useState.
  cbn [state render hook next_subscription closed]. rewrite Hx, Hinit.
  cbn [snd]. unfold take_down. cbn [state render]. by rewrite Hx.
Qed.

Lemma step_unmount_hook c : hook (step call c Unmount) = None.
Proof. by destruct c as [[h|] w]. Qed.

Lemma run_snoc evs ev c : run call (evs ++ [ev]) c = step call (run call evs c) ev.
Proof. unfold run. by rewrite fold_left_app. Qed.

Lemma take_down_shaped c : shaped c -> take_down c = c.
Proof.
  destruct c as [[h|] w]; unfold shaped, take_down; cbn [hook state].
  - by intros (_ & [x ->] & _).
  - by intros (-> & _).
Qed.

Lemma shaped_step c ev :
  shaped c ->
  shaped (step call c ev)
  /\ closed (state c) ⊆ closed (state (step call c ev)).
Proof.
  intros Hc. destruct c as [h [r n cl]]. unfold shaped in Hc. cbn [hook state] in Hc.
  cbn [render next_subscription closed] in Hc.
  destruct ev as [observed deps cfg|sid v|].
  - (* a render *)
    destruct h as [h|].
    + destruct Hc as (Hd & [x Hx] & Hpos & Hcl).
      destruct (React.inputs_changed deps (React.memo_deps h)) eqn:Hch.
      * rewrite (step_render_changed _ _ _ _ _ _ _ x (pred n)) by done.
        destruct (subscribe_shaped observed deps r n ({[pred n]} ∪ cl))
          as (Hsh & _ & Hsub).
        { by eexists. }
        { intros sid. rewrite elem_of_union, elem_of_singleton, Hcl. lia. }
        split; [exact Hsh|].
        set (w2 := snd (from_subscribe _ _ _)) in *.
        unfold take_down. cbn [state].
        destruct (React.memoizedState (render w2)); cbn [state closed];
          (etrans; [|exact Hsub]); apply union_subseteq_r.
      * rewrite (step_render_same _ _ _ _ _ _ _ x) by done.
        split; [|done]. unfold shaped. cbn [hook state render
          next_subscription closed React.memo_destroy].
        split; [done|]. split; [by eexists|]. done.
    + destruct Hc as (Hx & Hcl).
      destruct (if isFunction (initial_of cfg)
                then React.invoke call (initial_of cfg) VUndefined
                else Normal (initial_of cfg)) as [v|e] eqn:Hinit.
      * rewrite (step_render_mount _ _ _ _ _ _ v) by done.
        destruct (subscribe_shaped observed deps
                    (React.RenderState (Some v) (React.updates r)) n cl)
          as (Hsh & _ & Hsub); [by eexists|done|].
        split; [exact Hsh|].
        set (w2 := snd (from_subscribe _ _ _)) in *.
        unfold take_down. cbn [state].
        by destruct (React.memoizedState (render w2)).
      * rewrite (step_render_throws _ _ _ _ _ _ e) by done.
        split; [|done]. unfold shaped. by cbn.
  - (* a value from a source *)
    cbn [step state next_subscription hook].
    case_bool_decide as Hlt; [|by split].
    destruct (decide (sid ∈ cl)) as [Hin|Hin].
    + rewrite subscriber_next_closed by done.
      by rewrite take_down_shaped.
    + destruct h as [h|]; [|by (destruct Hc as (_ & Hcl); destruct Hin; apply Hcl)].
      destruct Hc as (Hd & Hslot & Hpos & Hcl).
      assert (S sid = n) as Hlast.
      { destruct (decide (S sid = n)) as [|Hne]; [done|].
        destruct Hin. apply Hcl. lia. }
      destruct (subscriber_next_shape sid v (World r n cl) Hin Hslot)
        as [Hn H]. cbn zeta in Hn, H.
      cbn [next_subscription closed] in Hn, H.
      unfold take_down. cbn [state].
      destruct H as [[[x Hx] Hc']|[Hx Hc']]; rewrite Hx; cbn [state].
      * rewrite Hc'. split; [|done]. unfold shaped. cbn [hook state].
        rewrite Hn, Hx, Hc'. split; [done|]. split; [by eexists|]. done.
      * rewrite Hc'. split; [|apply union_subseteq_r]. unfold shaped.
        cbn [hook state]. rewrite Hn, Hx, Hc'. split; [done|]. intros sid'.
        rewrite elem_of_union, elem_of_singleton, Hcl. lia.
  - (* unmounting *)
    cbn [step state hook]. destruct h as [h|].
    + destruct Hc as (Hd & Hslot & Hpos & Hcl).
      unfold React.unmount. rewrite Hd. unfold close.
      cbn [render next_subscription closed]. split; [|apply union_subseteq_r].
      unfold shaped. cbn. split; [done|]. intros sid.
      rewrite elem_of_union, elem_of_singleton, Hcl. lia.
    + destruct Hc as (Hx & Hcl). cbn. split; [|done]. unfold shaped. by cbn.
Qed.

Lemma shaped_run evs : forall c, shaped c -> shaped (run call evs c).
Proof.
  induction evs as [|ev evs IH]; intros c Hc; [done|].
  apply IH, shaped_step, Hc.
Qed.

Lemma shaped_reachable evs : shaped (run call evs unmounted).
Proof. apply shaped_run, shaped_unmounted. Qed.

(** A closed subscription forwards nothing. *)
Lemma emit_closed c sid v :
  shaped c -> sid ∈ closed (state c) -> step call c (Emit sid v) = c.
Proof.
  intros Hc Hcl. cbn [step]. case_bool_decide; [|done].
  rewrite subscriber_next_closed by done.
  destruct c as [h w]. by apply take_down_shaped.
Qed.

(** Teardown closes every subscription made so far. *)
Lemma tears_down_closes c ev sid :
  shaped c -> tears_down c ev = true ->
  (sid < next_subscription (state c))%nat ->
  sid ∈ closed (state (step call c ev)).
Proof.
  intros Hc Htd Hlt. destruct c as [h [r n cl]].
  unfold shaped in Hc. cbn [hook state render next_subscription closed] in *.
  destruct h as [h|].
  - destruct Hc as (Hd & [x Hx] & Hpos & Hcl).
    destruct ev as [observed deps cfg|sid' v|]; cbn [tears_down hook] in Htd;
      [|done|].
    + rewrite (step_render_changed _ _ _ _ _ _ _ x (pred n)) by done.
      destruct (subscribe_shaped observed deps r n ({[pred n]} ∪ cl))
        as (_ & _ & Hsub).
      { by eexists. }
      { intros s. rewrite elem_of_union, elem_of_singleton, Hcl. lia. }
      assert (sid ∈ closed (snd (from_subscribe call observed
                                    (World r n ({[pred n]} ∪ cl))))).
      { apply Hsub. rewrite elem_of_union, elem_of_singleton, Hcl. lia. }
      set (w2 := snd (from_subscribe _ _ _)) in *.
      unfold take_down. cbn [state].
      by destruct (React.memoizedState (render w2)).
    + cbn [step state hook]. unfold React.unmount. rewrite Hd. unfold close.
      cbn. rewrite elem_of_union, elem_of_singleton, Hcl. lia.
  - destruct Hc as (Hx & Hcl).
    destruct ev as [observed deps cfg|sid' v|]; cbn [tears_down hook] in Htd;
      try done.
    cbn. by apply Hcl.
Qed.

(** The values a closed subscription is handed change nothing. *)
Lemma run_without sid evs : forall c,
  shaped c -> sid ∈ closed (state c) ->
  run call evs c = run call (without sid evs) c.
Proof.
  induction evs as [|ev evs IH]; intros c Hc Hcl; [done|].
  cbn [without]. destruct (is_emit_of sid ev) eqn:Eem.
  - destruct ev as [| sid' v |]; try done. cbn in Eem.
    apply bool_decide_eq_true in Eem as ->.
    cbn [run fold_left]. rewrite emit_closed by done. by apply IH.
  - cbn [run fold_left]. destruct (shaped_step c ev Hc) as [Hc' Hsub].
    apply IH; [done|]. by apply Hsub.
Qed.
End AsyncFacts.

(** C2. Once the subscription [sid] has been torn down, by a render whose
    dependency list changed or by unmounting, the values its source still
    produces, a deferred value that resolves late among them, change
    nothing: the component ends in the state it would have reached had
    the source produced none of them. *)
Theorem useAsyncValues_drops_superseded
    (call : nat -> value -> completion value)
    (before : list AsyncValues.event) (ev : AsyncValues.event)
    (after : list AsyncValues.event) (sid : nat) :
  let c := AsyncValues.run call before AsyncValues.unmounted in
  (sid < AsyncValues.next_subscription (AsyncValues.state c))%nat ->
  AsyncValues.tears_down c ev = true ->
  AsyncValues.run call (before ++ ev :: after) AsyncValues.unmounted
  = AsyncValues.run call (before ++ ev :: AsyncValues.without sid after)
                    AsyncValues.unmounted.
Proof.
  intros c Hlt Htd. unfold AsyncValues.run. rewrite !fold_left_app.
  cbn [fold_left]. fold (AsyncValues.run call before AsyncValues.unmounted).
  fold c.
  pose proof (shaped_reachable call before) as Hc. fold c in Hc.
  apply run_without.
  - by apply shaped_step.
  - by apply tears_down_closes.
Qed.

(** A promise that resolves to ["late"] after the dependency list went
    from [[1]] to [[2]]. *)
Lemma useAsyncValues_drops_superseded_witness :
  let call := fun (_ : nat) (_ : value) => Normal VUndefined in
  let before :=
    [AsyncValues.Render (AsyncValues.Source []) (Some [VNum 1]) None] in
  let ev := AsyncValues.Render (AsyncValues.Source []) (Some [VNum 2]) None in
  let after := [AsyncValues.Emit 0%nat (VStr "late")] in
  let c := AsyncValues.run call before AsyncValues.unmounted in
  (0 < AsyncValues.next_subscription (AsyncValues.state c))%nat
  /\ AsyncValues.tears_down c ev = true
  /\ AsyncValues.run call (before ++ ev :: after) AsyncValues.unmounted
     = AsyncValues.run call (before ++ [ev]) AsyncValues.unmounted.
Proof.
  intros call before ev after c.
  assert (Hlt : (0 < AsyncValues.next_subscription (AsyncValues.state c))%nat)
    by (vm_compute; lia).
  assert (Htd : AsyncValues.tears_down c ev = true) by reflexivity.
  split; [exact Hlt|]. split; [exact Htd|].
  exact (useAsyncValues_drops_superseded call before ev after 0%nat Hlt Htd).
Defined.

(** C4, as amended. When neither the configured initial values nor the
    emitted values are functions (the host framework calls a function
    handed to [useState] as a lazy initializer and applies a function
    handed to the setter as an updater of the previous state), a render
    returns the most recent of the values emitted, since the component
    was mounted, by a stream that was the current one when it emitted,
    and the configured initial value ([undefined] when none is
    configured) if there is no such value; the values of the current
    stream come last among them. *)
Theorem useAsyncValues_returns_most_recent
    (call : nat -> value -> completion value)
    (evs : list AsyncValues.event) (observed : AsyncValues.ObservableInput)
    (deps : option (list value)) (cfg : option AsyncValues.config) :
  let c := AsyncValues.run call evs AsyncValues.unmounted in
  let s := AsyncValues.view_run evs AsyncValues.no_view in
  forallb AsyncValues.plain_event evs = true ->
  isFunction (AsyncValues.initial_of cfg) = false ->
  fst (AsyncValues.useAsyncValues call observed deps cfg c)
  = Normal
      match AsyncValues.mounted_deps s with
      | Some _ =>
          AsyncValues.most_recent (AsyncValues.configured s)
                                  (AsyncValues.heard s)
      | None => AsyncValues.initial_of cfg
      end
  /\ exists earlier,
      AsyncValues.heard s = earlier ++ AsyncValues.heard_current s.
Proof.
  intros c s Hplain Hinit.
  destruct (agrees_reachable call evs Hplain) as [Hh Hs Hn Hc Hm Hcur].
  fold c s in Hh, Hs, Hn, Hc, Hm, Hcur. split; [|exact Hcur].
  unfold AsyncValues.useAsyncValues, React.useState. rewrite Hs.
  destruct (AsyncValues.mounted_deps s); cbn.
  - by destruct (useSubscription _ _ _ _).
  - rewrite Hinit. by destruct (useSubscription _ _ _ _).
Qed.

(** The first stream emitted [7], then the dependency list changed and
    the second stream emitted ["hi"]: the render returns ["hi"]. *)
Lemma useAsyncValues_returns_most_recent_witness :
  let call := fun (_ : nat) (_ : value) => Normal VUndefined in
  let cfg := Some (AsyncValues.Config (Some (VStr "loading"))) in
  let evs :=
    [AsyncValues.Render (AsyncValues.Source []) (Some [VNum 1]) cfg;
     AsyncValues.Emit 0%nat (VNum 7);
     AsyncValues.Render (AsyncValues.Source []) (Some [VNum 2]) cfg;
     AsyncValues.Emit 1%nat (VStr "hi")] in
  let c := AsyncValues.run call evs AsyncValues.unmounted in
  let s := AsyncValues.view_run evs AsyncValues.no_view in
  forallb AsyncValues.plain_event evs = true
  /\ isFunction (AsyncValues.initial_of cfg) = false
  /\ AsyncValues.heard s = [VNum 7; VStr "hi"]
  /\ AsyncValues.heard_current s = [VStr "hi"]
  /\ fst (AsyncValues.useAsyncValues call (AsyncValues.Source [])
            (Some [VNum 2]) cfg c) = Normal (VStr "hi").
Proof.
  intros call cfg evs c s.
  assert (Hplain : forallb AsyncValues.plain_event evs = true) by reflexivity.
  assert (Hinit : isFunction (AsyncValues.initial_of cfg) = false)
    by reflexivity.
  split; [exact Hplain|]. split; [exact Hinit|].
  split; [reflexivity|]. split; [reflexivity|].
  exact (proj1 (useAsyncValues_returns_most_recent call evs
                  (AsyncValues.Source []) (Some [VNum 2]) cfg Hplain Hinit)).
Defined.

(** C4, as stated, fails: after the dependency list went from [[1]] to
    [[2]] the current stream, the second, has produced nothing, and the
    render returns the [7] of the first stream, not the initial value.
    No function is involved. *)
Lemma useAsyncValues_returns_initial_counterexample :
  let call := fun (_ : nat) (_ : value) => Normal VUndefined in
  let evs :=
    [AsyncValues.Render (AsyncValues.Source []) (Some [VNum 1]) None;
     AsyncValues.Emit 0%nat (VNum 7);
     AsyncValues.Render (AsyncValues.Source []) (Some [VNum 2]) None] in
  let c := AsyncValues.run call evs AsyncValues.unmounted in
  AsyncValues.next_subscription (AsyncValues.state c) = 2%nat
  /\ AsyncValues.produced 1%nat evs = []
  /\ fst (AsyncValues.useAsyncValues call (AsyncValues.Source [])
            (Some [VNum 2]) None c) = Normal (VNum 7)
  /\ AsyncValues.initial_of None = VUndefined.
Proof. vm_compute. auto. Qed.

(** ** The mutable cell *)

Section CellFacts.
Import Cell.
Variable call : nat -> value -> completion value.

Lemma next_fold v subs : forall w,
  fold_left (next v) subs w
  = set_delivered (delivered w ++ map (fun s => (s, v)) subs) w.
Proof.
  induction subs as [|s subs IH]; intros w.
  - destruct w; cbn. by rewrite app_nil_r.
  - cbn [fold_left map]. rewrite IH. destruct w; cbn.
    by rewrite <- app_assoc.
Qed.

(** A value that is not a function is stored and broadcast. *)
Lemma setValue_value fuel v w :
  isFunction v = false ->
  setValue call (S fuel) v w = Some (Normal (), stored v w).
Proof.
  intros Hv. cbn [setValue]. rewrite Hv, next_fold. done.
Qed.

(** A function is called on the current value, and what it returns is
    looked at in turn. *)
Lemma setValue_function fuel f w :
  setValue call (S fuel) (VFun f) w =
  match apply call f (getValue w) with
  | Throw e => Some (Throw e, w)
  | Normal result =>
      match isPromiseLike result with
      | Throw e => Some (Throw e, w)
      | Normal true => Some (invoke_then result w)
      | Normal false => setValue call fuel result w
      end
  end.
Proof. reflexivity. Qed.

Lemma isPromiseLike_inv result :
  isPromiseLike result =
  match result with
  | VNull => Throw TypeError
  | VPromise _ => Normal true
  | _ => Normal false
  end.
Proof. by destruct result. Qed.

(** What a call of the setter can do to the world: nothing (it threw, or
    the promise it met was rejected already), leave a reaction on a
    promise, or store and broadcast a value that is not a function. *)
Lemma setValue_cases fuel : forall v w c w',
  setValue call fuel v w = Some (c, w') ->
  w' = w
  \/ (exists p, c = Normal () /\ w' = then_setValue p w)
  \/ (exists u, c = Normal () /\ isFunction u = false /\ w' = stored u w).
Proof.
  induction fuel as [|fuel IH]; intros v w c w' Hset; [done|].
  destruct (isFunction v) eqn:Hv.
  - destruct v; try done. rewrite setValue_function in Hset.
    destruct (apply call f (getValue w)) as [result|e]; [|left; congruence].
    rewrite isPromiseLike_inv in Hset.
    destruct result; try (by apply IH in Hset); cbn in Hset.
    + left. congruence.
    + right. left. exists p. split; congruence.
  - rewrite setValue_value in Hset by done.
    right. right. exists v. repeat split; congruence.
Qed.

Lemma then_setValue_fields p w :
  cell (then_setValue p w) = cell w
  /\ next_subscriber (then_setValue p w) = next_subscriber w
  /\ delivered (then_setValue p w) = delivered w
  /\ settled (then_setValue p w) = settled w
  /\ host (then_setValue p w) = host w.
Proof.
  unfold then_setValue. destruct (settled w !! p) as [[v|e]|]; done.
Qed.

(** *** Subscribers are numbered as they come *)

Lemma numbered_setValue fuel v w c w' :
  setValue call fuel v w = Some (c, w') -> numbered w -> numbered w'.
Proof.
  intros Hset [Hd Hs].
  destruct (setValue_cases _ _ _ _ _ Hset) as [->|[(p & _ & ->)|(u & _ & _ & ->)]].
  - done.
  - destruct (then_setValue_fields p w) as (Hc & Hn & Hdl & _).
    unfold numbered. by rewrite Hc, Hn, Hdl.
  - split; cbn; [|done]. apply Forall_app. split; [done|].
    apply Forall_map. cbn. done.
Qed.

Lemma numbered_step fuel w ev w' :
  step call fuel w ev = Some w' -> numbered w -> numbered w'.
Proof.
  intros Hstep Hnum. destruct ev as [v| |s|p s|]; cbn in Hstep.
  - destruct (setValue call fuel v w) as [[c w1]|] eqn:Hset; [|done].
    injection Hstep as <-. by eapply numbered_setValue.
  - injection Hstep as <-. destruct Hnum as [Hd Hs]. split; cbn.
    + apply Forall_app. split.
      * eapply Forall_impl; [exact Hd|]. cbn. lia.
      * constructor; [cbn; lia|done].
    + unfold set_add. case_bool_decide.
      * eapply Forall_impl; [exact Hs|]. cbn. lia.
      * apply Forall_app. split.
        -- eapply Forall_impl; [exact Hs|]. cbn. lia.
        -- constructor; [lia|done].
  - injection Hstep as <-. destruct Hnum as [Hd Hs]. split; cbn; [done|].
    unfold set_delete. apply Forall_forall. intros x Hx.
    apply list_elem_of_filter in Hx as [_ Hx].
    by eapply Forall_forall in Hs.
  - injection Hstep as <-. unfold settle.
    destruct (settled w !! p); [done|]. done.
  - unfold run_job in Hstep. destruct (jobs w) as [|v js]; [congruence|].
    destruct (setValue call fuel v (set_jobs js w)) as [[c w1]|] eqn:Hset; [|done].
    injection Hstep as <-. eapply numbered_setValue; [exact Hset|done].
Qed.

Lemma numbered_run fuel evs : forall w w',
  run call fuel evs w = Some w' -> numbered w -> numbered w'.
Proof.
  induction evs as [|ev evs IH]; intros w w' Hrun Hnum; cbn in Hrun.
  - congruence.
  - destruct (step call fuel w ev) as [w1|] eqn:Hstep; [|done].
    eapply IH; [exact Hrun|]. by eapply numbered_step.
Qed.

Lemma numbered_create init r : numbered (create init r).
Proof. split; cbn; constructor. Qed.

(** *** Notifications are never taken back *)

Lemma delivered_setValue fuel v w c w' :
  setValue call fuel v w = Some (c, w') ->
  exists more, delivered w' = delivered w ++ more.
Proof.
  intros Hset.
  destruct (setValue_cases _ _ _ _ _ Hset) as [->|[(p & _ & ->)|(u & _ & _ & ->)]].
  - exists []. by rewrite app_nil_r.
  - destruct (then_setValue_fields p w) as (_ & _ & -> & _).
    exists []. by rewrite app_nil_r.
  - by eexists.
Qed.

Lemma delivered_step fuel w ev w' :
  step call fuel w ev = Some w' ->
  exists more, delivered w' = delivered w ++ more.
Proof.
  intros Hstep. destruct ev as [v| |s|p s|]; cbn in Hstep.
  - destruct (setValue call fuel v w) as [[c w1]|] eqn:Hset; [|done].
    injection Hstep as <-. by eapply delivered_setValue.
  - injection Hstep as <-. by eexists.
  - injection Hstep as <-. exists []. by rewrite app_nil_r.
  - injection Hstep as <-. exists []. rewrite app_nil_r. unfold settle.
    by destruct (settled w !! p).
  - unfold run_job in Hstep. destruct (jobs w) as [|v js]; [|].
    + injection Hstep as <-. exists []. by rewrite app_nil_r.
    + destruct (setValue call fuel v (set_jobs js w)) as [[c w1]|] eqn:Hset; [|done].
      injection Hstep as <-. by eapply delivered_setValue in Hset.
Qed.

Lemma delivered_run fuel evs : forall w w',
  run call fuel evs w = Some w' ->
  exists more, delivered w' = delivered w ++ more.
Proof.
  induction evs as [|ev evs IH]; intros w w' Hrun; cbn in Hrun.
  - injection Hrun as <-. exists []. by rewrite app_nil_r.
  - destruct (step call fuel w ev) as [w1|] eqn:Hstep; [|done].
    destruct (delivered_step _ _ _ _ Hstep) as [m1 H1].
    destruct (IH _ _ Hrun) as [m2 H2].
    exists (m1 ++ m2). by rewrite H2, H1, app_assoc.
Qed.

Lemma received_fresh w :
  numbered w -> received (next_subscriber w) w = [].
Proof.
  intros [Hd _]. unfold received.
  induction Hd as [|d ds Hlt _ IH]; [done|].
  rewrite filter_cons_False by lia. exact IH.
Qed.

(** *** The setter never stores a function *)

Lemma setValue_no_function fuel v w c w' :
  setValue call fuel v w = Some (c, w') ->
  getValue w' = getValue w \/ isFunction (getValue w') = false.
Proof.
  intros Hset.
  destruct (setValue_cases _ _ _ _ _ Hset) as [->|[(p & _ & ->)|(u & _ & Hu & ->)]].
  - by left.
  - left. unfold getValue. by destruct (then_setValue_fields p w) as (-> & _).
  - by right.
Qed.

Lemma step_no_function fuel w ev w' :
  step call fuel w ev = Some w' ->
  isFunction (getValue w) = false -> isFunction (getValue w') = false.
Proof.
  intros Hstep Hw. destruct ev as [v| |s|p s|]; cbn in Hstep.
  - destruct (setValue call fuel v w) as [[c w1]|] eqn:Hset; [|done].
    injection Hstep as <-.
    destruct (setValue_no_function _ _ _ _ _ Hset) as [->|]; done.
  - by injection Hstep as <-.
  - by injection Hstep as <-.
  - injection Hstep as <-. unfold settle. by destruct (settled w !! p).
  - unfold run_job in Hstep. destruct (jobs w) as [|v js]; [congruence|].
    destruct (setValue call fuel v (set_jobs js w)) as [[c w1]|] eqn:Hset; [|done].
    injection Hstep as <-.
    destruct (setValue_no_function _ _ _ _ _ Hset) as [->|]; done.
Qed.

Lemma run_no_function fuel evs : forall w w',
  run call fuel evs w = Some w' ->
  isFunction (getValue w) = false -> isFunction (getValue w') = false.
Proof.
  induction evs as [|ev evs IH]; intros w w' Hrun Hw; cbn in Hrun.
  - congruence.
  - destruct (step call fuel w ev) as [w1|] eqn:Hstep; [|done].
    eapply IH; [exact Hrun|]. by eapply step_no_function.
Qed.
End CellFacts.

Section CellMore.
Import Cell.
Variable call : nat -> value -> completion value.

(** What one broadcast hands to one subscriber. *)
Lemma broadcast_received s v subs :
  map snd (filter (fun d : nat * value => fst d = s)
                  (map (fun s' => (s', v)) subs))
  = repeat v (length (filter (fun s' => s' = s) subs)).
Proof.
  induction subs as [|s' subs IH]; [done|]. cbn [map].
  destruct (decide (s' = s)) as [->|Hne].
  - rewrite !filter_cons_True by done. cbn. by rewrite IH.
  - rewrite !filter_cons_False by done. exact IH.
Qed.

Lemma received_stored s v w :
  received s (stored v w)
  = received s w
    ++ repeat v (length (filter (fun s' => s' = s) (subscribers (cell w)))).
Proof.
  unfold received, stored. cbn [delivered].
  by rewrite filter_app, map_app, broadcast_received.
Qed.

(** Without a call of the setter nothing waits and nothing is stored. *)
Lemma quiet_step fuel w ev :
  is_call ev = false -> jobs w = [] -> reactions w = [] ->
  exists w', step call fuel w ev = Some w'
    /\ jobs w' = [] /\ reactions w' = [] /\ getValue w' = getValue w.
Proof.
  intros Hev Hj Hr. destruct ev as [v| |s|p s|]; try done; cbn.
  - eexists. split; [done|]. done.
  - eexists. split; [done|]. done.
  - eexists. split; [done|]. unfold settle.
    destruct (settled w !! p); [done|]. cbn. rewrite Hj, Hr. cbn.
    by destruct s.
  - unfold run_job. rewrite Hj. by eexists.
Qed.

Lemma quiet_run fuel evs : forall w,
  forallb (fun ev => negb (is_call ev)) evs = true ->
  jobs w = [] -> reactions w = [] ->
  exists w', run call fuel evs w = Some w' /\ getValue w' = getValue w.
Proof.
  induction evs as [|ev evs IH]; intros w Hevs Hj Hr; cbn in *.
  - by eexists.
  - apply andb_true_iff in Hevs as [Hev Hevs]. apply negb_true_iff in Hev.
    destruct (quiet_step fuel w ev Hev Hj Hr) as (w1 & -> & Hj1 & Hr1 & <-).
    by apply IH.
Qed.
End CellMore.

(** C3. A new subscriber of the observable of a cell is handed the
    current value of the cell inside the call that subscribes it, before
    anything else: it is the first notification the subscriber ever gets,
    whatever happens to the cell later, and it is the initial value when
    the setter has not been called since the cell was created. *)
Theorem subscribe_replays_current (call : nat -> value -> completion value)
    (fuel : nat) (init : value) (r : React.render_state)
    (evs evs' : list Cell.event) (w w'' : Cell.world) :
  Cell.run call fuel evs (Cell.create init r) = Some w ->
  Cell.run call fuel evs' (snd (Cell.subscribe w)) = Some w'' ->
  Cell.received (fst (Cell.subscribe w)) (snd (Cell.subscribe w))
    = [Cell.getValue w]
  /\ (exists later,
        Cell.received (fst (Cell.subscribe w)) w'' = Cell.getValue w :: later)
  /\ Cell.received (fst (Cell.subscribe (Cell.create init r)))
                   (snd (Cell.subscribe (Cell.create init r))) = [init].
Proof.
  intros Hrun Hrun'.
  assert (Hnum : Cell.numbered w)
    by (eapply numbered_run; [exact Hrun|apply numbered_create]).
  assert (Hfirst : Cell.received (fst (Cell.subscribe w)) (snd (Cell.subscribe w))
                   = [Cell.getValue w]).
  { unfold Cell.received, Cell.subscribe. cbn.
    rewrite filter_app, map_app.
    change (map snd (filter _ (Cell.delivered w)))
      with (Cell.received (Cell.next_subscriber w) w).
    rewrite received_fresh by done.
    by rewrite filter_cons_True. }
  split; [exact Hfirst|]. split; [|reflexivity].
  destruct (delivered_run call _ _ _ _ Hrun') as [more Hmore].
  unfold Cell.received in *. rewrite Hmore, filter_app, map_app, Hfirst.
  by eexists.
Qed.

(** A counter cell: a subscriber that arrives after one increment. *)
Lemma subscribe_replays_current_witness :
  let call := fun (_ : nat) (x : value) =>
    match x with VNum n => Normal (VNum (n + 1)) | _ => Normal x end in
  let w := Cell.stored (VNum 1) (Cell.create (VNum 0) (React.RenderState None 0)) in
  let w'' := Cell.stored (VNum 5) (snd (Cell.subscribe w)) in
  Cell.received 0%nat (snd (Cell.subscribe w)) = [VNum 1]
  /\ exists later, Cell.received 0%nat w'' = VNum 1 :: later.
Proof.
  intros call w w''.
  destruct (subscribe_replays_current call 3 (VNum 0) (React.RenderState None 0)
              [Cell.Calls (VFun (UserFn 0))] [Cell.Calls (VNum 5)] w w''
              eq_refl eq_refl) as (H1 & H2 & _).
  split; [exact H1 | exact H2].
Defined.

(** C6. A direct call of the setter, with a value that is not a function,
    stores the value and hands it to every subscriber of that moment, in
    the order they subscribed, and does nothing else: the subscriber set,
    the promises and the render state of the owning component are as they
    were, so no re-render is asked for. *)
Theorem setValue_direct_frame (call : nat -> value -> completion value)
    (fuel : nat) (v : value) (w : Cell.world) :
  isFunction v = false ->
  Cell.setValue call (S fuel) v w
  = Some (Normal (),
          Cell.World (Cell.Closure v (Cell.subscribers (Cell.cell w)))
                     (Cell.next_subscriber w)
                     (Cell.delivered w
                      ++ map (fun s => (s, v)) (Cell.subscribers (Cell.cell w)))
                     (Cell.settled w) (Cell.reactions w) (Cell.jobs w)
                     (Cell.host w))
  /\ (forall s, s ∈ Cell.subscribers (Cell.cell w) ->
        exists earlier,
          Cell.received s (Cell.stored v w) = Cell.received s w ++ earlier ++ [v])
  /\ (forall s, s ∉ Cell.subscribers (Cell.cell w) ->
        Cell.received s (Cell.stored v w) = Cell.received s w).
Proof.
  intros Hv. split; [by apply setValue_value|]. split; intros s Hs.
  - rewrite received_stored.
    destruct (filter (fun s' => s' = s) (Cell.subscribers (Cell.cell w)))
      as [|x xs] eqn:Hf.
    + exfalso. assert (s ∈ filter (fun s' => s' = s)
                                 (Cell.subscribers (Cell.cell w)))
        by (by apply list_elem_of_filter).
      rewrite Hf in H. by apply not_elem_of_nil in H.
    + cbn [length repeat]. exists (repeat v (length xs)).
      by rewrite repeat_cons.
  - rewrite received_stored.
    destruct (filter (fun s' => s' = s) (Cell.subscribers (Cell.cell w)))
      as [|x xs] eqn:Hf; [by rewrite app_nil_r|].
    exfalso. assert (Hx : x ∈ x :: xs) by apply list_elem_of_here.
    rewrite <- Hf in Hx. apply list_elem_of_filter in Hx as [-> Hx]. done.
Qed.

(** Two subscribers, one render state that has asked for no re-render. *)
Lemma setValue_direct_frame_witness :
  let call := fun (_ : nat) (x : value) => Normal x in
  let w := Cell.World (Cell.Closure (VStr "draft") [0%nat; 1%nat]) 2 [] ∅ [] []
                      (React.RenderState (Some VUndefined) 0) in
  isFunction (VStr "benlesh") = false
  /\ Cell.setValue call 1 (VStr "benlesh") w
     = Some (Normal (),
             Cell.World (Cell.Closure (VStr "benlesh") [0%nat; 1%nat]) 2
                        [(0%nat, VStr "benlesh"); (1%nat, VStr "benlesh")]
                        ∅ [] [] (React.RenderState (Some VUndefined) 0)).
Proof.
  intros call w. split; [reflexivity|].
  exact (proj1 (setValue_direct_frame call 0 (VStr "benlesh") w eq_refl)).
Defined.

(** C7. The getter returns the value the setter was last called with,
    when that value is not a function; before the setter is called, also
    after subscriptions, settlements and later renders of the component,
    it returns the initial value the cell was created with. *)
Theorem getValue_after_setValue (call : nat -> value -> completion value)
    (fuel : nat) (v init init' : value) (r : React.render_state)
    (w : Cell.world) (evs : list Cell.event) :
  isFunction v = false ->
  forallb (fun ev => negb (Cell.is_call ev)) evs = true ->
  (exists w', Cell.setValue call (S fuel) v w = Some (Normal (), w')
              /\ Cell.getValue w' = v)
  /\ Cell.getValue (Cell.create init r) = init
  /\ (exists w0, Cell.run call fuel evs (Cell.create init r) = Some w0
                 /\ Cell.getValue w0 = init)
  /\ Cell.useObservableState init' (Some (Cell.cell w)) = Cell.cell w.
Proof.
  intros Hv Hevs. split; [|split; [done|split; [|done]]].
  - exists (Cell.stored v w). split; [by apply setValue_value|done].
  - by apply quiet_run.
Qed.

Lemma getValue_after_setValue_witness :
  let call := fun (_ : nat) (x : value) => Normal x in
  let w := Cell.create (VStr "draft") (React.RenderState None 0) in
  exists w', Cell.setValue call 1 (VStr "benlesh") w = Some (Normal (), w')
             /\ Cell.getValue w' = VStr "benlesh".
Proof.
  intros call w.
  exact (proj1 (getValue_after_setValue call 0 (VStr "benlesh") (VStr "draft")
                  VNull (React.RenderState None 0) w
                  [Cell.Subscribes; Cell.RunsJob] eq_refl eq_refl)).
Defined.

(** C8, as amended. When the transformation returns [null] the setter
    throws a [TypeError] and changes nothing: the test for a promise
    reads [then] off a value whose [typeof] is ['object'] without a check
    for [null]. Any other result that is neither a function nor a
    promise ([undefined], a boolean, a number, a string, a plain object)
    does not throw: it is stored and broadcast. *)
Theorem setValue_null_result_throws (call : nat -> value -> completion value)
    (fuel : nat) (f : nat) (w : Cell.world) (result : value) :
  call f (Cell.getValue w) = Normal result ->
  (result = VNull ->
   Cell.setValue call (S fuel) (VFun (UserFn f)) w = Some (Throw TypeError, w))
  /\ (result <> VNull -> isFunction result = false ->
      (forall p, result <> VPromise p) ->
      Cell.setValue call (S (S fuel)) (VFun (UserFn f)) w
      = Some (Normal (), Cell.stored result w)).
Proof.
  intros Hcall. split.
  - intros ->. rewrite setValue_function. cbn [Cell.apply]. by rewrite Hcall.
  - intros Hnull Hfun Hprom. rewrite setValue_function. cbn [Cell.apply].
    rewrite Hcall, isPromiseLike_inv.
    destruct result; try done; try (by apply setValue_value).
    by destruct (Hprom p).
Qed.

Lemma setValue_null_result_throws_witness :
  let call := fun (_ : nat) (_ : value) => Normal VNull in
  let w := Cell.create (VNum 0) (React.RenderState None 0) in
  call 0%nat (Cell.getValue w) = Normal VNull
  /\ Cell.setValue call 1 (VFun (UserFn 0)) w = Some (Throw TypeError, w).
Proof.
  intros call w. split; [reflexivity|].
  exact (proj1 (setValue_null_result_throws call 0 0 w VNull eq_refl) eq_refl).
Defined.

(** C8, as stated, fails: a transformation that returns the number [5],
    or [undefined], returns a non-object, and the setter does not throw:
    it stores what was returned. *)
Lemma setValue_non_object_result_counterexample :
  let w := Cell.create (VNum 0) (React.RenderState None 0) in
  typeof (VNum 5) <> TObject
  /\ Cell.setValue (fun _ _ => Normal (VNum 5)) 2 (VFun (UserFn 0)) w
     = Some (Normal (), Cell.stored (VNum 5) w)
  /\ typeof VUndefined <> TObject
  /\ Cell.setValue (fun _ _ => Normal VUndefined) 2 (VFun (UserFn 0)) w
     = Some (Normal (), Cell.stored VUndefined w).
Proof. repeat split; done. Qed.

(** C10, as amended. A call of the setter leaves the current value or
    stores a value that is not a function; a function it is given, by
    the caller, by a transformation or by a promise, is called in turn
    on the current value. So the getter of a cell whose initial value is
    not a function never returns a function. *)
Theorem setValue_never_stores_function
    (call : nat -> value -> completion value) (fuel : nat) (init : value)
    (r : React.render_state) (evs : list Cell.event) (w : Cell.world)
    (v : value) (w0 : Cell.world) (c : completion ()) (w1 : Cell.world) :
  Cell.run call fuel evs (Cell.create init r) = Some w ->
  Cell.setValue call fuel v w0 = Some (c, w1) ->
  (Cell.getValue w1 = Cell.getValue w0 \/ isFunction (Cell.getValue w1) = false)
  /\ (isFunction init = false -> isFunction (Cell.getValue w) = false)
  /\ (forall f g, call f (Cell.getValue w0) = Normal (VFun g) ->
        Cell.setValue call (S fuel) (VFun (UserFn f)) w0
        = Cell.setValue call fuel (VFun g) w0).
Proof.
  intros Hrun Hset. split; [by eapply setValue_no_function|]. split.
  - intros Hinit. by eapply run_no_function.
  - intros f g Hcall. rewrite setValue_function. cbn [Cell.apply].
    by rewrite Hcall.
Qed.

(** Three increments, the last one through a function that returns the
    incrementing function. *)
Lemma setValue_never_stores_function_witness :
  let call := fun (f : nat) (x : value) =>
    match f, x with
    | O, VNum n => Normal (VNum (n + 1))
    | S _, _ => Normal (VFun (UserFn 0))
    | _, _ => Normal x
    end in
  let evs := [Cell.Calls (VFun (UserFn 0)); Cell.Calls (VFun (UserFn 0));
              Cell.Calls (VFun (UserFn 1))] in
  let w := Cell.stored (VNum 3) (Cell.create (VNum 0) (React.RenderState None 0)) in
  Cell.run call 3 evs (Cell.create (VNum 0) (React.RenderState None 0)) = Some w
  /\ isFunction (Cell.getValue w) = false.
Proof.
  intros call evs w.
  assert (Hrun : Cell.run call 3 evs
                   (Cell.create (VNum 0) (React.RenderState None 0)) = Some w)
    by reflexivity.
  split; [exact Hrun|].
  refine (proj1 (proj2 (setValue_never_stores_function call 3 (VNum 0)
            (React.RenderState None 0) evs w (VNum 3)
            (Cell.create (VNum 0) (React.RenderState None 0)) (Normal ())
            w Hrun eq_refl)) eq_refl).
Defined.

(** C10, as stated, fails: a cell created around a function returns that
    function from its getter after a call of the setter whose
    transformation returns a promise that is still pending. *)
Lemma getValue_returns_function_counterexample :
  let call := fun (_ : nat) (_ : value) => Normal (VPromise 0) in
  let w0 := Cell.create (VFun (UserFn 0)) (React.RenderState None 0) in
  exists w, Cell.run call 2 [Cell.Calls (VFun (UserFn 1))] w0 = Some w
            /\ Cell.getValue w = VFun (UserFn 0)
            /\ isFunction (Cell.getValue w) = true.
Proof. intros call w0. eexists. repeat split; reflexivity. Qed.

(** *** A reaction that waits changes nothing else *)

Section Waiting.
Import Cell.
Variable call : nat -> value -> completion value.
Variable p : nat.

Lemma forget_inv w1 w2 :
  forget p w1 = forget p w2 <->
  cell w1 = cell w2 /\ next_subscriber w1 = next_subscriber w2
  /\ delivered w1 = delivered w2 /\ settled w1 = settled w2
  /\ filter (fun q => q ≠ p) (reactions w1)
     = filter (fun q => q ≠ p) (reactions w2)
  /\ jobs w1 = jobs w2 /\ host w1 = host w2.
Proof.
  destruct w1, w2. unfold forget, set_reactions. cbn. split.
  - intros [= -> -> -> -> -> -> ->]. done.
  - intros (-> & -> & -> & -> & -> & -> & ->). done.
Qed.

Lemma alike_refl w : alike p w w.
Proof. by split. Qed.

(** Worlds that are alike while [p] is pending. *)
Lemma alike_pending w1 w2 :
  settled w1 !! p = None -> forget p w1 = forget p w2 -> alike p w1 w2.
Proof. intros Hp Hf. split; [done|]. by rewrite Hp. Qed.

Lemma alike_cases w1 w2 :
  alike p w1 w2 ->
  w1 = w2 \/ (settled w1 !! p = None /\ forget p w1 = forget p w2).
Proof.
  intros [Hf Heq]. destruct (settled w1 !! p) eqn:Hp.
  - left. by apply Heq.
  - by right.
Qed.

Lemma alike_then_setValue q w1 w2 :
  alike p w1 w2 -> alike p (then_setValue q w1) (then_setValue q w2).
Proof.
  intros [->|[Hp Hf]]%alike_cases; [apply alike_refl|].
  pose proof Hf as (Hc & Hn & Hd & Hs & Hr & Hj & Hh)%forget_inv.
  unfold then_setValue. rewrite <- Hs.
  destruct (settled w1 !! q) as [[v|e]|] eqn:Hq.
  - apply alike_pending; [done|]. apply forget_inv. cbn. by rewrite Hj.
  - by apply alike_pending.
  - apply alike_pending; [done|]. apply forget_inv. cbn.
    by rewrite !filter_app, Hr.
Qed.

Lemma alike_stored v w1 w2 :
  alike p w1 w2 -> alike p (stored v w1) (stored v w2).
Proof.
  intros [->|[Hp Hf]]%alike_cases; [apply alike_refl|].
  pose proof Hf as (Hc & Hn & Hd & Hs & Hr & Hj & Hh)%forget_inv.
  apply alike_pending; [done|]. apply forget_inv. cbn.
  by rewrite Hc, Hn, Hd, Hs, Hr, Hj, Hh.
Qed.

Lemma alike_getValue w1 w2 : alike p w1 w2 -> getValue w1 = getValue w2.
Proof.
  intros [->|[_ Hf]]%alike_cases; [done|].
  apply forget_inv in Hf as (Hc & _). unfold getValue. by rewrite Hc.
Qed.

Lemma alike_setValue fuel : forall v w1 w2,
  alike p w1 w2 ->
  match setValue call fuel v w1, setValue call fuel v w2 with
  | Some (c1, w1'), Some (c2, w2') => c1 = c2 /\ alike p w1' w2'
  | None, None => True
  | _, _ => False
  end.
Proof.
  induction fuel as [|fuel IH]; intros v w1 w2 Hal; [done|].
  destruct (isFunction v) eqn:Hv.
  - destruct v; try done. rewrite !setValue_function.
    rewrite <- (alike_getValue _ _ Hal).
    destruct (apply call f (getValue w1)) as [result|e]; [|done].
    rewrite isPromiseLike_inv.
    destruct result; try (by apply IH); cbn; try done.
    split; [done|]. by apply alike_then_setValue.
  - rewrite !setValue_value by done. split; [done|]. by apply alike_stored.
Qed.

Lemma filter_filter_ne (q : nat) (l : list nat) :
  filter (fun x => x ≠ p) (filter (fun x => x ≠ q) l)
  = filter (fun x => x ≠ q) (filter (fun x => x ≠ p) l).
Proof.
  rewrite !list_filter_filter. apply list_filter_iff. intros x. tauto.
Qed.

Lemma filter_eq_ne (q : nat) (l : list nat) :
  q ≠ p ->
  filter (fun x => x = q) (filter (fun x => x ≠ p) l)
  = filter (fun x => x = q) l.
Proof.
  intros Hqp. apply list_filter_filter_l. by intros x ->.
Qed.

Lemma alike_settle q s w1 w2 :
  fulfils p (Settles q s) = false ->
  alike p w1 w2 -> alike p (settle q s w1) (settle q s w2).
Proof.
  intros Hful [->|[Hp Hf]]%alike_cases; [apply alike_refl|].
  pose proof Hf as (Hc & Hn & Hd & Hs & Hr & Hj & Hh)%forget_inv.
  unfold settle. rewrite <- Hs.
  destruct (settled w1 !! q) eqn:Hq; [by apply alike_pending|].
  destruct (decide (q = p)) as [->|Hne].
  - (* [p] is rejected: the reactions that wait on it are dropped *)
    destruct s as [v|e]; [cbn in Hful; by rewrite bool_decide_eq_true_2 in Hful|].
    rewrite Hc, Hn, Hd, Hr, Hj, Hh. apply alike_refl.
  - apply alike_pending; [cbn; by rewrite lookup_insert_ne|].
    apply forget_inv. cbn. rewrite Hc, Hn, Hd, Hj, Hh.
    rewrite !(filter_filter_ne q), Hr.
    rewrite <- (filter_eq_ne q (reactions w1)) by done.
    rewrite <- (filter_eq_ne q (reactions w2)) by done.
    by rewrite Hr.
Qed.

Lemma alike_step fuel ev w1 w2 :
  fulfils p ev = false -> alike p w1 w2 ->
  alike_opt p (step call fuel w1 ev) (step call fuel w2 ev).
Proof.
  intros Hful Hal. destruct ev as [v| |s|q s|]; cbn [step].
  - pose proof (alike_setValue fuel v w1 w2 Hal) as H.
    destruct (setValue call fuel v w1) as [[c1 w1']|],
             (setValue call fuel v w2) as [[c2 w2']|]; try done.
    by destruct H.
  - destruct (alike_cases _ _ Hal) as [->|[Hp Hf]]; [apply alike_refl|].
    pose proof Hf as (Hc & Hn & Hd & Hs & Hr & Hj & Hh)%forget_inv.
    apply alike_pending; [done|]. apply forget_inv. cbn.
    by rewrite Hc, Hn, Hd, Hs, Hr, Hj, Hh.
  - destruct (alike_cases _ _ Hal) as [->|[Hp Hf]]; [apply alike_refl|].
    pose proof Hf as (Hc & Hn & Hd & Hs & Hr & Hj & Hh)%forget_inv.
    apply alike_pending; [done|]. apply forget_inv. cbn.
    by rewrite Hc, Hn, Hd, Hs, Hr, Hj, Hh.
  - by apply alike_settle.
  - destruct (alike_cases _ _ Hal) as [->|[Hp Hf]].
    { destruct (run_job call fuel w2); [apply alike_refl|done]. }
    pose proof Hf as (Hc & Hn & Hd & Hs & Hr & Hj & Hh)%forget_inv.
    unfold run_job. rewrite <- Hj. destruct (jobs w1) as [|v js]; [done|].
    assert (Hal' : alike p (set_jobs js w1) (set_jobs js w2)).
    { apply alike_pending; [done|]. apply forget_inv. cbn.
      by rewrite Hc, Hn, Hd, Hs, Hr, Hh. }
    pose proof (alike_setValue fuel v _ _ Hal') as H.
    destruct (setValue call fuel v (set_jobs js w1)) as [[c1 w1']|],
             (setValue call fuel v (set_jobs js w2)) as [[c2 w2']|]; try done.
    by destruct H.
Qed.

Lemma alike_run fuel evs : forall w1 w2,
  forallb (fun ev => negb (fulfils p ev)) evs = true ->
  alike p w1 w2 ->
  alike_opt p (run call fuel evs w1) (run call fuel evs w2).
Proof.
  induction evs as [|ev evs IH]; intros w1 w2 Hevs Hal; [done|].
  cbn in Hevs. apply andb_true_iff in Hevs as [Hev Hevs].
  apply negb_true_iff in Hev. cbn [run].
  pose proof (alike_step fuel ev w1 w2 Hev Hal) as H.
  destruct (step call fuel w1 ev) as [w1'|], (step call fuel w2 ev) as [w2'|];
    try done.
  by apply IH.
Qed.

Lemma alike_opt_forget o1 o2 :
  alike_opt p o1 o2 -> forget p <$> o1 = forget p <$> o2.
Proof.
  destruct o1 as [w1|], o2 as [w2|]; try done. intros [Hf _]. cbn. by rewrite Hf.
Qed.

Lemma run_app fuel evs1 evs2 w :
  run call fuel (evs1 ++ evs2) w
  = match run call fuel evs1 w with
    | Some w' => run call fuel evs2 w'
    | None => None
    end.
Proof.
  revert w. induction evs1 as [|ev evs1 IH]; intros w; [done|].
  cbn. destruct (step call fuel w ev); [apply IH|done].
Qed.

(** Once [p] is rejected, worlds that were alike are the same. *)
Lemma alike_rejected e w1 w2 :
  alike p w1 w2 -> settle p (Rejected e) w1 = settle p (Rejected e) w2.
Proof.
  intros Hal.
  pose proof (alike_settle p (Rejected e) w1 w2 eq_refl Hal) as [_ Heq].
  apply Heq. unfold settle.
  destruct (settled w1 !! p) eqn:Hp; [by rewrite Hp|].
  cbn. by rewrite lookup_insert_eq.
Qed.

(** The call that meets a promise which is not fulfilled. *)
Lemma alike_call f fuel w :
  call f (getValue w) = Normal (VPromise p) ->
  (forall v, settled w !! p <> Some (Fulfilled v)) ->
  exists w1, setValue call (S fuel) (VFun (UserFn f)) w = Some (Normal (), w1)
             /\ alike p w1 w.
Proof.
  intros Hcall Hp. rewrite setValue_function. cbn [apply]. rewrite Hcall.
  cbn. eexists. split; [done|]. unfold then_setValue.
  destruct (settled w !! p) as [[v|e]|] eqn:Hs.
  - by destruct (Hp v).
  - apply alike_refl.
  - apply alike_pending; [done|]. apply forget_inv. cbn.
    rewrite filter_app, filter_cons_False by (intros ?; done).
    by rewrite app_nil_r.
Qed.
End Waiting.

Section Resolution.
Import Cell.
Variable call : nat -> value -> completion value.

Lemma run_cons fuel ev evs w w' :
  step call fuel w ev = Some w' ->
  run call fuel (ev :: evs) w = run call fuel evs w'.
Proof. intros H. cbn [run]. by rewrite H. Qed.




(** A transformation that answers at once with a plain value: the value
    is stored and broadcast. *)
Lemma setValue_plain_result fuel f w y :
  call f (getValue w) = Normal y -> plain y = true ->
  setValue call (S (S fuel)) (VFun (UserFn f)) w = Some (Normal (), stored y w).
Proof.
  intros Hcall Hy. rewrite setValue_function. cbn [apply].
  rewrite Hcall, isPromiseLike_inv.
  destruct y; try done; by apply setValue_value.
Qed.
End Resolution.

(** C9. A functional call of the setter whose transformation returns a
    promise that rejects: the call itself stores nothing and notifies
    nobody; as long as the promise is not fulfilled the world differs
    from the world without the call in nothing but the reactions that
    wait on that promise; and from the rejection on the two worlds are
    the same, whatever happens before and after. *)
Theorem rejected_promise_leaves_cell
    (call : nat -> value -> completion value) (fuel : nat) (f p : nat)
    (e : error) (w : Cell.world) (evs evs' : list Cell.event) :
  call f (Cell.getValue w) = Normal (VPromise p) ->
  (forall v, Cell.settled w !! p <> Some (Cell.Fulfilled v)) ->
  forallb (fun ev => negb (Cell.fulfils p ev)) evs = true ->
  (exists w1,
      Cell.setValue call (S fuel) (VFun (UserFn f)) w = Some (Normal (), w1)
      /\ Cell.cell w1 = Cell.cell w /\ Cell.delivered w1 = Cell.delivered w
      /\ Cell.jobs w1 = Cell.jobs w /\ Cell.host w1 = Cell.host w)
  /\ Cell.forget p <$> Cell.run call (S fuel)
                         (Cell.Calls (VFun (UserFn f)) :: evs) w
     = Cell.forget p <$> Cell.run call (S fuel) evs w
  /\ Cell.run call (S fuel)
       (Cell.Calls (VFun (UserFn f)) :: evs
        ++ Cell.Settles p (Cell.Rejected e) :: evs') w
     = Cell.run call (S fuel)
         (evs ++ Cell.Settles p (Cell.Rejected e) :: evs') w.
Proof.
  intros Hcall Hp Hevs.
  destruct (alike_call call p f fuel w Hcall Hp) as (w1 & Hset & Hal).
  assert (Hstep : Cell.step call (S fuel) w (Cell.Calls (VFun (UserFn f)))
                  = Some w1) by (cbn [Cell.step]; by rewrite Hset).
  split; [|split].
  - exists w1. split; [done|].
    destruct Hal as [(Hc & _ & Hd & _ & _ & Hj & Hh)%forget_inv _]. done.
  - rewrite (run_cons call _ _ _ _ _ Hstep).
    by apply alike_opt_forget, alike_run.
  - rewrite (run_cons call _ _ _ _ _ Hstep), !run_app.
    pose proof (alike_run call p (S fuel) evs w1 w Hevs Hal) as Hrun.
    destruct (Cell.run call (S fuel) evs w1) as [w1'|],
             (Cell.run call (S fuel) evs w) as [w'|]; try done.
    cbn [Cell.run Cell.step]. by rewrite (alike_rejected call p e w1' w').
Qed.

(** A fetch that fails while another value is set. *)
Lemma rejected_promise_leaves_cell_witness :
  let call := fun (_ : nat) (_ : value) => Normal (VPromise 7) in
  let w := snd (Cell.subscribe (Cell.create (VNum 0) (React.RenderState None 0))) in
  let e := Thrown (VStr "offline") in
  Cell.run call 1 [Cell.Calls (VFun (UserFn 0)); Cell.Calls (VNum 1);
                   Cell.Settles 7 (Cell.Rejected e); Cell.RunsJob] w
  = Cell.run call 1 [Cell.Calls (VNum 1);
                     Cell.Settles 7 (Cell.Rejected e); Cell.RunsJob] w.
Proof.
  intros call w e.
  refine (proj2 (proj2 (rejected_promise_leaves_cell call 0 0 7 e w
                          [Cell.Calls (VNum 1)] [Cell.RunsJob]
                          eq_refl _ eq_refl))).
  intros v. cbn. by rewrite lookup_empty.
Defined.




(** ** The scenarios of the test suite and of the README *)

(** index.test.tsx, "should subscribe, and unsubscribe and resubscribe if
    deps change": one setup after the mount; a setup and a release more
    after each of the two increments. *)
Example test_resubscribe_on_deps_change :
  let mount := Lifecycle.Render (Some [VNum 0; VNum 0]) in
  let dep1 := Lifecycle.Render (Some [VNum 1; VNum 0]) in
  let dep2 := Lifecycle.Render (Some [VNum 1; VNum 1]) in
  snd (Lifecycle.run [mount] Lifecycle.unmounted) = [Lifecycle.Setup 0]
  /\ snd (Lifecycle.run [mount; dep1] Lifecycle.unmounted)
     = [Lifecycle.Setup 0; Lifecycle.Release 0; Lifecycle.Setup 1]
  /\ snd (Lifecycle.run [mount; dep1; dep2] Lifecycle.unmounted)
     = [Lifecycle.Setup 0; Lifecycle.Release 0; Lifecycle.Setup 1;
        Lifecycle.Release 1; Lifecycle.Setup 2].
Proof. repeat split; reflexivity. Qed.

(** index.test.tsx, "should subscribe on mount and unsubscribe on unmount
    with deps []": the component is shown, hidden, shown and hidden. *)
Example test_mount_unmount_toggle :
  let show := Lifecycle.Render (Some []) in
  let hide := Lifecycle.Unmount in
  snd (Lifecycle.run [show; hide; show; hide] Lifecycle.unmounted)
  = [Lifecycle.Setup 0; Lifecycle.Release 0;
     Lifecycle.Setup 1; Lifecycle.Release 1].
Proof. reflexivity. Qed.

(** README, "async functions": ["Loading..."], then ["Hi!"] once the
    promise has resolved. *)
Example readme_loading_then_hi :
  let call := fun (_ : nat) (_ : value) => Normal VUndefined in
  let cfg := Some (AsyncValues.Config (Some (VStr "Loading..."))) in
  let render := AsyncValues.Render (AsyncValues.Source []) (Some []) cfg in
  AsyncValues.returned (AsyncValues.run call [render] AsyncValues.unmounted)
  = Some (VStr "Loading...")
  /\ AsyncValues.returned
       (AsyncValues.run call [render; AsyncValues.Emit 0 (VStr "Hi!"); render]
                        AsyncValues.unmounted)
     = Some (VStr "Hi!").
Proof. split; reflexivity. Qed.

(** The async generator of the test suite, without an initial value:
    [undefined], then [1], [2] and [3]. *)
Example test_async_generator :
  let call := fun (_ : nat) (_ : value) => Normal VUndefined in
  let render := AsyncValues.Render (AsyncValues.Source []) (Some []) None in
  let seen := fun evs =>
    AsyncValues.returned (AsyncValues.run call evs AsyncValues.unmounted) in
  seen [render] = Some VUndefined
  /\ seen [render; AsyncValues.Emit 0 (VNum 1)] = Some (VNum 1)
  /\ seen [render; AsyncValues.Emit 0 (VNum 1); AsyncValues.Emit 0 (VNum 2)]
     = Some (VNum 2)
  /\ seen [render; AsyncValues.Emit 0 (VNum 1); AsyncValues.Emit 0 (VNum 2);
           AsyncValues.Emit 0 (VNum 3)] = Some (VNum 3).
Proof. repeat split; reflexivity. Qed.

(** What the host framework does with functions. An [initialValue] that
    is a function is called, once, at the mount, and what it answers is
    the first state; an emitted function is applied to the state as an
    updater; neither is ever the rendered value. *)
Example functions_are_initializers_and_updaters :
  let call := fun (f : nat) (x : value) =>
    match f, x with
    | O, _ => Normal (VNum 40)
    | S _, VNum n => Normal (VNum (n + 2))
    | S _, _ => Normal x
    end in
  let cfg := Some (AsyncValues.Config (Some (VFun (UserFn 0)))) in
  let render := AsyncValues.Render (AsyncValues.Source []) (Some []) cfg in
  let seen := fun evs =>
    AsyncValues.returned (AsyncValues.run call evs AsyncValues.unmounted) in
  seen [render] = Some (VNum 40)
  /\ seen [render; AsyncValues.Emit 0 (VFun (UserFn 1))] = Some (VNum 42)
  /\ seen [render; AsyncValues.Emit 0 (VFun (UserFn 1)); render]
     = Some (VNum 42).
Proof. repeat split; reflexivity. Qed.

(** An emission that is [Object.is]-equal to the state schedules no
    render; a different one schedules one. *)
Example equal_emission_schedules_no_render :
  let call := fun (_ : nat) (_ : value) => Normal VUndefined in
  let render := AsyncValues.Render (AsyncValues.Source []) (Some []) None in
  let scheduled := fun evs =>
    React.updates
      (AsyncValues.render
         (AsyncValues.state (AsyncValues.run call evs AsyncValues.unmounted))) in
  scheduled [render; AsyncValues.Emit 0 (VNum 1)] = 1%nat
  /\ scheduled [render; AsyncValues.Emit 0 (VNum 1);
                AsyncValues.Emit 0 (VNum 1)] = 1%nat
  /\ scheduled [render; AsyncValues.Emit 0 (VNum 1);
                AsyncValues.Emit 0 (VNum 2)] = 2%nat.
Proof. repeat split; reflexivity. Qed.

(** index.test.tsx, "should create observable state with value setter
    callback": a subscriber of a cell created around [0] sees [0], and
    [1], [2], [3] after three calls of the setter with [n => n + 1]. *)
Example test_value_setter_callback :
  let call := fun (_ : nat) (x : value) =>
    match x with VNum n => Normal (VNum (n + 1)) | _ => Normal x end in
  let increment := Cell.Calls (VFun (UserFn 0)) in
  exists w,
    Cell.run call 2 [Cell.Subscribes; increment; increment; increment]
             (Cell.create (VNum 0) (React.RenderState None 0)) = Some w
    /\ Cell.received 0%nat w = [VNum 0; VNum 1; VNum 2; VNum 3]
    /\ Cell.getValue w = VNum 3.
Proof. intros call increment. eexists. repeat split; reflexivity. Qed.

(** * Further properties *)

(** ** useSubscription over any life of a component *)

Section LifecycleMore.
Import Lifecycle.

Lemma bracketed_step c ph : bracketed c -> bracketed (step c ph).
Proof.
  intros [n [[Hh Hl]|[[deps Hh] Hl]]]; destruct c as [h log];
    cbn [fst snd] in *; subst h log.
  - (* not mounted *)
    destruct ph as [deps|]; [|exists n; by left].
    exists n. right. unfold step, useSubscription, React.useEffect.
    cbn [fst snd]. rewrite (probe_live n) by apply setups_cycles.
    split; [by eexists|done].
  - (* mounted *)
    destruct ph as [deps'|].
    + unfold step, useSubscription, React.useEffect.
      cbn [fst snd React.memo_deps React.memo_destroy].
      destruct (React.inputs_changed deps' deps).
      * exists (S n). right.
        rewrite (probe_live (S n)).
        2:{ rewrite <- app_assoc, List.filter_app, length_app, setups_cycles.
            cbn. lia. }
        cbn [fst snd unsubscribe]. split; [by eexists|].
        by rewrite cycles_S, <- !app_assoc.
      * exists n. right. cbn [fst snd]. split; [by eexists|done].
    + exists (S n). left. unfold step, React.unmount.
      cbn [fst snd React.memo_destroy]. split; [done|].
      by rewrite cycles_S, <- app_assoc.
Qed.

Lemma bracketed_run phases : forall c, bracketed c -> bracketed (run phases c).
Proof.
  induction phases as [|ph phases IH]; intros c Hc; [done|].
  apply IH, bracketed_step, Hc.
Qed.

Lemma bracketed_unmounted : bracketed unmounted.
Proof. exists 0%nat. by left. Qed.
End LifecycleMore.


(** X2. A render without a dependency list, or the render that follows
    one, always tears down and sets up again: on a mounted component it
    releases the live handle and calls the setup function once. *)
Theorem useSubscription_without_deps_resubscribes
    (phases : list Lifecycle.phase) (deps : option (list value)) :
  let c := Lifecycle.run phases Lifecycle.unmounted in
  is_Some (fst c) ->
  deps = None \/ fst c ≫= React.memo_deps = None ->
  exists n,
    snd c = Lifecycle.cycles n ++ [Lifecycle.Setup n]
    /\ snd (Lifecycle.step c (Lifecycle.Render deps))
       = snd c ++ [Lifecycle.Release n; Lifecycle.Setup (S n)].
Proof.
  intros c Hm Hdeps.
  destruct (bracketed_run phases _ bracketed_unmounted) as [n [[Hh _]|[[d Hh] Hl]]];
    fold c in Hh; [rewrite Hh in Hm; by destruct Hm|].
  fold c in Hl. exists n. split; [done|].
  destruct c as [h log]. cbn [fst snd] in *. subst h.
  unfold Lifecycle.step, useSubscription, React.useEffect.
  cbn [fst snd React.memo_deps React.memo_destroy].
  assert (React.inputs_changed deps d = true) as ->.
  { destruct Hdeps as [->|Hd]; [done|]. cbn in Hd. subst d. by destruct deps. }
  rewrite (probe_live (S n)).
  2:{ subst log. rewrite <- app_assoc, List.filter_app, length_app, setups_cycles.
      cbn. lia. }
  cbn [fst snd]. by rewrite <- app_assoc.
Qed.

(** Three renders of a component that passes no dependency list. *)
Lemma useSubscription_without_deps_resubscribes_witness :
  let phases := [Lifecycle.Render None; Lifecycle.Render None] in
  let c := Lifecycle.run phases Lifecycle.unmounted in
  is_Some (fst c)
  /\ exists n,
      snd c = Lifecycle.cycles n ++ [Lifecycle.Setup n]
      /\ snd (Lifecycle.step c (Lifecycle.Render None))
         = snd c ++ [Lifecycle.Release n; Lifecycle.Setup (S n)].
Proof.
  intros phases c.
  assert (Hm : is_Some (fst c)) by (by eexists).
  split; [exact Hm|].
  exact (useSubscription_without_deps_resubscribes phases None Hm (or_introl eq_refl)).
Defined.

(** ** Invariants of the mutable cell *)

Section CellInvariants.
Import Cell.
Variable call : nat -> value -> completion value.

(** A property of worlds that the primitive moves keep is kept by every
    event. *)
Lemma step_keeps (P : world -> Prop) :
  (forall w p, P w -> P (then_setValue p w)) ->
  (forall w u, isFunction u = false -> P w -> P (stored u w)) ->
  (forall w, P w -> P (snd (subscribe w))) ->
  (forall w s, P w -> P (teardown s w)) ->
  (forall w p s, P w -> P (settle p s w)) ->
  (forall w js, P w -> P (set_jobs js w)) ->
  forall fuel w ev w', step call fuel w ev = Some w' -> P w -> P w'.
Proof.
  intros Hthen Hstored Hsub Htear Hsettle Hjobs fuel w ev w' Hstep Hw.
  assert (Hset : forall v w0 c w1,
            setValue call fuel v w0 = Some (c, w1) -> P w0 -> P w1).
  { intros v w0 c w1 Hs Hw0.
    destruct (setValue_cases call _ _ _ _ _ Hs)
      as [->|[(p & _ & ->)|(u & _ & Hu & ->)]]; auto. }
  destruct ev as [v| |s|p s|]; cbn [step] in Hstep.
  - destruct (setValue call fuel v w) as [[c w1]|] eqn:Hs; [|done].
    injection Hstep as <-. eauto.
  - injection Hstep as <-. by apply Hsub.
  - injection Hstep as <-. by apply Htear.
  - injection Hstep as <-. by apply Hsettle.
  - unfold run_job in Hstep. destruct (jobs w) as [|v js]; [congruence|].
    destruct (setValue call fuel v (set_jobs js w)) as [[c w1]|] eqn:Hs; [|done].
    injection Hstep as <-. eauto.
Qed.

Lemma run_keeps (P : world -> Prop) :
  (forall w p, P w -> P (then_setValue p w)) ->
  (forall w u, isFunction u = false -> P w -> P (stored u w)) ->
  (forall w, P w -> P (snd (subscribe w))) ->
  (forall w s, P w -> P (teardown s w)) ->
  (forall w p s, P w -> P (settle p s w)) ->
  (forall w js, P w -> P (set_jobs js w)) ->
  forall fuel evs w w', run call fuel evs w = Some w' -> P w -> P w'.
Proof.
  intros Hthen Hstored Hsub Htear Hsettle Hjobs fuel evs.
  induction evs as [|ev evs IH]; intros w w' Hrun Hw; cbn in Hrun.
  - congruence.
  - destruct (step call fuel w ev) as [w1|] eqn:Hstep; [|done].
    eapply IH; [exact Hrun|]. by eapply step_keeps.
Qed.

Lemma then_setValue_received p s w :
  received s (then_setValue p w) = received s w.
Proof.
  unfold received. by destruct (then_setValue_fields p w) as (_ & _ & -> & _).
Qed.

Lemma settle_fields p s w :
  cell (settle p s w) = cell w
  /\ next_subscriber (settle p s w) = next_subscriber w
  /\ delivered (settle p s w) = delivered w.
Proof. unfold settle. by destruct (settled w !! p). Qed.

Lemma subscribe_received s w :
  received s (snd (subscribe w))
  = received s w ++ (if decide (next_subscriber w = s) then [getValue w] else []).
Proof.
  unfold received, subscribe. cbn. rewrite filter_app, map_app. f_equal.
  rewrite filter_cons, filter_nil. cbn. by case_decide.
Qed.

(** The set of subscribers holds no subscriber twice. *)
Lemma nodup_run fuel evs init r w :
  run call fuel evs (create init r) = Some w -> NoDup (subscribers (cell w)).
Proof.
  intros Hrun.
  refine (run_keeps (fun w => NoDup (subscribers (cell w)))
            _ _ _ _ _ _ fuel evs _ _ Hrun _); cbn beta.
  - intros w0 p. by destruct (then_setValue_fields p w0) as (-> & _).
  - intros w0 u _ Hw0. exact Hw0.
  - intros w0 Hw0. cbn. unfold set_add. case_bool_decide; [done|].
    apply NoDup_app. split; [done|]. split; [|apply NoDup_singleton].
    intros x Hx ->%list_elem_of_singleton. done.
  - intros w0 s Hw0. cbn. unfold set_delete. by apply NoDup_filter.
  - intros w0 p s. by destruct (settle_fields p s w0) as (-> & _).
  - intros w0 js Hw0. exact Hw0.
  - cbn. constructor.
Qed.

Lemma filter_eq_nodup (s : nat) (l : list nat) :
  NoDup l -> s ∈ l -> filter (fun x => x = s) l = [s].
Proof.
  induction 1 as [|x l Hx Hl IH]; [by intros ?%not_elem_of_nil|].
  intros [Heq|Hs]%elem_of_cons; [subst x|].
  - rewrite filter_cons_True by done. f_equal.
    destruct (filter (fun x => x = s) l) as [|y ys] eqn:Hf; [done|].
    assert (Hy : y ∈ y :: ys) by apply list_elem_of_here.
    rewrite <- Hf in Hy. apply list_elem_of_filter in Hy as [-> Hy]. done.
  - rewrite filter_cons_False by (intros ->; done). by apply IH.
Qed.

Lemma filter_eq_not_elem (s : nat) (l : list nat) :
  s ∉ l -> filter (fun x => x = s) l = [].
Proof.
  intros Hs. destruct (filter (fun x => x = s) l) as [|y ys] eqn:Hf; [done|].
  assert (Hy : y ∈ y :: ys) by apply list_elem_of_here.
  rewrite <- Hf in Hy. apply list_elem_of_filter in Hy as [-> Hy]. done.
Qed.

End CellInvariants.

(** X3. A call of the setter that ends by throwing, at any depth of the
    chain of transformations, has changed nothing: the current value, the
    subscribers, the notifications and the promises are as before. *)
Theorem setValue_throw_leaves_world (call : nat -> value -> completion value)
    (fuel : nat) (v : value) (w : Cell.world) (e : error) (w' : Cell.world) :
  Cell.setValue call fuel v w = Some (Throw e, w') ->
  w' = w /\ Cell.step call fuel w (Cell.Calls v) = Some w.
Proof.
  intros Hset.
  assert (w' = w) as ->.
  { destruct (setValue_cases call _ _ _ _ _ Hset)
      as [->|[(p & Hc & _)|(u & Hc & _)]]; done. }
  split; [done|]. cbn [Cell.step]. by rewrite Hset.
Qed.

(** A transformation that returns a function that throws. *)
Lemma setValue_throw_leaves_world_witness :
  let call := fun (f : nat) (_ : value) =>
    match f with
    | O => Normal (VFun (UserFn 1))
    | S _ => Throw (Thrown (VStr "boom"))
    end in
  let w := snd (Cell.subscribe (Cell.create (VNum 0) (React.RenderState None 0))) in
  Cell.setValue call 2 (VFun (UserFn 0)) w = Some (Throw (Thrown (VStr "boom")), w)
  /\ Cell.step call 2 w (Cell.Calls (VFun (UserFn 0))) = Some w.
Proof.
  intros call w.
  assert (H : Cell.setValue call 2 (VFun (UserFn 0)) w
              = Some (Throw (Thrown (VStr "boom")), w)) by reflexivity.
  split; [exact H|].
  exact (proj2 (setValue_throw_leaves_world call 2 (VFun (UserFn 0)) w _ w H)).
Defined.

Section InSync.
Import Cell.
Variable call : nat -> value -> completion value.

(** X4. As long as the handlers of the subscribers only take what they
    are handed (no handler calls the setter or unsubscribes anybody from
    inside a notification), after every call on the cell has returned
    the last notification each of its current subscribers was handed is
    the current value of the cell: what the getter returns and what the
    subscribers last saw do not differ between two calls. *)
Theorem subscribers_last_saw_current (fuel : nat) (init : value)
    (r : React.render_state) (evs : list event) (w : world) (s : nat) :
  run call fuel evs (create init r) = Some w ->
  s ∈ subscribers (cell w) ->
  last (received s w) = Some (getValue w).
Proof.
  intros Hrun. revert s.
  refine (run_keeps call
            (fun w => forall s, s ∈ subscribers (cell w) ->
                                last (received s w) = Some (getValue w))
            _ _ _ _ _ _ fuel evs _ _ Hrun _); cbn beta.
  - intros w0 p Hw0 s. rewrite then_setValue_received. unfold getValue.
    destruct (then_setValue_fields p w0) as (-> & _). apply Hw0.
  - intros w0 u _ Hw0 s Hs. rewrite received_stored.
    destruct (filter (fun s' => s' = s) (subscribers (cell w0))) as [|y ys] eqn:Hf.
    + exfalso.
      assert (Hin : s ∈ filter (fun s' => s' = s) (subscribers (cell w0)))
        by (by apply list_elem_of_filter).
      rewrite Hf in Hin. by apply not_elem_of_nil in Hin.
    + cbn [length repeat]. rewrite repeat_cons, app_assoc. apply last_snoc.
  - intros w0 Hw0 s Hs. rewrite subscribe_received.
    change (getValue (snd (subscribe w0))) with (getValue w0).
    case_decide as Hn.
    + apply last_snoc.
    + rewrite app_nil_r. apply Hw0. cbn in Hs. unfold set_add in Hs.
      case_bool_decide; [done|].
      apply elem_of_app in Hs as [Hs|Hs%list_elem_of_singleton]; [done|].
      by subst.
  - intros w0 s' Hw0 s Hs. cbn in Hs. unfold set_delete in Hs.
    apply list_elem_of_filter in Hs as [_ Hs]. by apply Hw0.
  - intros w0 p s' Hw0 s. unfold received, getValue.
    destruct (settle_fields p s' w0) as (-> & _ & ->). apply Hw0.
  - intros w0 js Hw0. exact Hw0.
  - intros s Hs. by apply not_elem_of_nil in Hs.
Qed.
End InSync.

Lemma subscribers_last_saw_current_witness :
  let call := fun (_ : nat) (x : value) =>
    match x with VNum n => Normal (VNum (n + 1)) | _ => Normal x end in
  let evs := [Cell.Subscribes; Cell.Calls (VFun (UserFn 0));
              Cell.Subscribes; Cell.Calls (VNum 7)] in
  exists w,
    Cell.run call 2 evs (Cell.create (VNum 0) (React.RenderState None 0)) = Some w
    /\ last (Cell.received 1%nat w) = Some (Cell.getValue w).
Proof.
  intros call evs. eexists. split; [reflexivity|].
  refine (subscribers_last_saw_current call 2 (VNum 0) (React.RenderState None 0)
            evs _ 1%nat eq_refl _).
  cbn. apply elem_of_cons. right. apply list_elem_of_here.
Defined.

(** X5. The set of subscribers never holds a subscriber twice, so a direct
    call of the setter hands the value to each current subscriber exactly
    once. *)
Theorem setValue_notifies_once (call : nat -> value -> completion value)
    (fuel fuel' : nat) (init : value) (r : React.render_state)
    (evs : list Cell.event) (w : Cell.world) (v : value) (s : nat) :
  Cell.run call fuel evs (Cell.create init r) = Some w ->
  isFunction v = false ->
  s ∈ Cell.subscribers (Cell.cell w) ->
  NoDup (Cell.subscribers (Cell.cell w))
  /\ exists w', Cell.setValue call (S fuel') v w = Some (Normal (), w')
                /\ Cell.received s w' = Cell.received s w ++ [v].
Proof.
  intros Hrun Hv Hs.
  pose proof (nodup_run call fuel evs init r w Hrun) as Hnd.
  split; [done|]. exists (Cell.stored v w).
  split; [by apply setValue_value|].
  by rewrite received_stored, filter_eq_nodup.
Qed.

Lemma setValue_notifies_once_witness :
  let call := fun (_ : nat) (x : value) => Normal x in
  let evs := [Cell.Subscribes; Cell.Subscribes; Cell.Unsubscribes 0] in
  exists w w',
    Cell.run call 1 evs (Cell.create (VNum 0) (React.RenderState None 0)) = Some w
    /\ Cell.setValue call 1 (VNum 5) w = Some (Normal (), w')
    /\ Cell.received 1%nat w' = Cell.received 1%nat w ++ [VNum 5].
Proof.
  intros call evs. eexists.
  destruct (setValue_notifies_once call 1 0 (VNum 0) (React.RenderState None 0)
              evs _ (VNum 5) 1%nat eq_refl eq_refl) as (_ & w' & Hset & Hrec).
  - cbn. apply list_elem_of_here.
  - exists w'. split; [reflexivity|]. split; [exact Hset|exact Hrec].
Defined.

Section Unsubscribed.
Import Cell.
Variable call : nat -> value -> completion value.

(** After its teardown a subscriber is out of the set for good: numbers
    are not given twice. *)
Lemma gone_run s (R : list value) fuel evs w w' :
  run call fuel evs w = Some w' ->
  (s ∉ subscribers (cell w)) /\ (s < next_subscriber w)%nat
  /\ received s w = R ->
  (s ∉ subscribers (cell w')) /\ (s < next_subscriber w')%nat
  /\ received s w' = R.
Proof.
  intros Hrun.
  refine (run_keeps call
            (fun w => (s ∉ subscribers (cell w))
                      /\ (s < next_subscriber w)%nat /\ received s w = R)
            _ _ _ _ _ _ fuel evs _ _ Hrun); cbn beta.
  - intros w0 p (Hs & Hn & HR). rewrite then_setValue_received.
    by destruct (then_setValue_fields p w0) as (-> & -> & _).
  - intros w0 u _ (Hs & Hn & HR). rewrite received_stored.
    rewrite filter_eq_not_elem by done. cbn. by rewrite app_nil_r.
  - intros w0 (Hs & Hn & HR). rewrite subscribe_received.
    rewrite decide_False by lia. rewrite app_nil_r. cbn.
    split; [|split; [lia|done]]. unfold set_add. case_bool_decide; [done|].
    intros [?|?%list_elem_of_singleton]%elem_of_app; [done|lia].
  - intros w0 s' (Hs & Hn & HR). cbn. split; [|done]. unfold set_delete.
    by intros [_ ?]%list_elem_of_filter.
  - intros w0 p s' (Hs & Hn & HR). unfold received.
    by destruct (settle_fields p s' w0) as (-> & -> & ->).
  - intros w0 js H. exact H.
Qed.
End Unsubscribed.

(** X6. Once the teardown of a subscriber has run, that subscriber is
    handed nothing more, whatever happens to the cell afterwards; running
    the teardown a second time changes nothing. *)
Theorem unsubscribed_receives_nothing (call : nat -> value -> completion value)
    (fuel : nat) (w : Cell.world) (s : nat) (evs : list Cell.event)
    (w' : Cell.world) :
  (s < Cell.next_subscriber w)%nat ->
  Cell.run call fuel evs (Cell.teardown s w) = Some w' ->
  Cell.received s w' = Cell.received s w
  /\ (s ∉ Cell.subscribers (Cell.cell w'))
  /\ Cell.teardown s (Cell.teardown s w) = Cell.teardown s w.
Proof.
  intros Hlt Hrun.
  assert (Hgone : s ∉ Cell.subscribers (Cell.cell (Cell.teardown s w))).
  { cbn. unfold Cell.set_delete. by intros [? _]%list_elem_of_filter. }
  destruct (gone_run call s (Cell.received s w) fuel evs _ _ Hrun)
    as (Hs & _ & HR); [done|].
  split; [done|]. split; [done|].
  unfold Cell.teardown, Cell.set_cell, Cell.set_delete.
  cbn [Cell.cell Cell.currentValue Cell.subscribers Cell.next_subscriber
       Cell.delivered Cell.settled Cell.reactions Cell.jobs Cell.host].
  by rewrite list_filter_filter_l.
Qed.

Lemma unsubscribed_receives_nothing_witness :
  let call := fun (_ : nat) (x : value) => Normal x in
  let w := snd (Cell.subscribe (Cell.create (VNum 0) (React.RenderState None 0))) in
  exists w',
    Cell.run call 1 [Cell.Calls (VNum 1); Cell.Subscribes; Cell.Calls (VNum 2)]
             (Cell.teardown 0 w) = Some w'
    /\ Cell.received 0%nat w' = [VNum 0].
Proof.
  intros call w. eexists. split; [reflexivity|].
  refine (proj1 (unsubscribed_receives_nothing call 1 w 0
                   [Cell.Calls (VNum 1); Cell.Subscribes; Cell.Calls (VNum 2)]
                   _ _ eq_refl)).
  cbn. lia.
Defined.

(** ** useAsyncValues over any life of a component *)

(** X8. The hook holds at most one open subscription: of the
    subscriptions it has made, the last one is open while the component
    is mounted and every other one is closed; after unmounting none is
    open. *)
Theorem useAsyncValues_one_open_subscription
    (call : nat -> value -> completion value)
    (evs : list AsyncValues.event) (sid : nat) :
  let c := AsyncValues.run call evs AsyncValues.unmounted in
  (sid < AsyncValues.next_subscription (AsyncValues.state c))%nat ->
  (sid ∉ AsyncValues.closed (AsyncValues.state c)
   <-> is_Some (AsyncValues.hook c)
       /\ S sid = AsyncValues.next_subscription (AsyncValues.state c)).
Proof.
  intros c Hlt. pose proof (shaped_reachable call evs) as Hsh. fold c in Hsh.
  unfold AsyncValues.shaped in Hsh.
  destruct (AsyncValues.hook c) as [h|].
  - destruct Hsh as (_ & _ & _ & Hc). rewrite Hc.
    split; [intros ?; split; [by eexists|lia] | intros [_ ?]; lia].
  - destruct Hsh as (_ & Hc). rewrite Hc.
    split; [intros ?; lia | by intros [[? [=]] _]].
Qed.

Lemma useAsyncValues_one_open_subscription_witness :
  let call := fun (_ : nat) (_ : value) => Normal VUndefined in
  let evs :=
    [AsyncValues.Render (AsyncValues.Source []) (Some [VNum 1]) None;
     AsyncValues.Render (AsyncValues.Source []) (Some [VNum 2]) None] in
  let c := AsyncValues.run call evs AsyncValues.unmounted in
  (0 < AsyncValues.next_subscription (AsyncValues.state c))%nat
  /\ (0%nat ∉ AsyncValues.closed (AsyncValues.state c)
      <-> is_Some (AsyncValues.hook c)
          /\ 1%nat = AsyncValues.next_subscription (AsyncValues.state c)).
Proof.
  intros call evs c.
  assert (Hlt : (0 < AsyncValues.next_subscription (AsyncValues.state c))%nat)
    by (vm_compute; lia).
  split; [exact Hlt|].
  exact (useAsyncValues_one_open_subscription call evs 0%nat Hlt).
Defined.

(** X10. A render whose dependency list is unchanged does not call the
    factory again: it returns the value in the state and leaves the
    state, the subscriptions and the count of queued re-renders as they
    were. *)
Theorem useAsyncValues_same_deps_keeps_subscription
    (call : nat -> value -> completion value)
    (evs : list AsyncValues.event) (observed : AsyncValues.ObservableInput)
    (deps : option (list value)) (cfg : option AsyncValues.config)
    (h : React.effect_hook AsyncValues.world) :
  let c := AsyncValues.run call evs AsyncValues.unmounted in
  AsyncValues.hook c = Some h ->
  React.inputs_changed deps (React.memo_deps h) = false ->
  AsyncValues.state
    (AsyncValues.step call c (AsyncValues.Render observed deps cfg))
    = AsyncValues.state c
  /\ Some (fst (AsyncValues.useAsyncValues call observed deps cfg c))
     = Normal <$> AsyncValues.returned c.
Proof.
  intros c Hh Hsame.
  pose proof (shaped_reachable call evs) as Hsh. fold c in Hsh.
  unfold AsyncValues.shaped in Hsh. rewrite Hh in Hsh.
  destruct Hsh as (_ & [x Hx] & _).
  destruct c as [h' [r n cl]].
  cbn [AsyncValues.hook AsyncValues.state AsyncValues.render] in Hh, Hx.
  subst h'. split.
  - by rewrite (step_render_same call _ _ _ _ _ _ _ x).
  - unfold AsyncValues.returned, AsyncValues.useAsyncValues, React.useState.
    cbn [AsyncValues.state AsyncValues.render]. rewrite Hx.
    by destruct (useSubscription _ _ _ _).
Qed.

Lemma useAsyncValues_same_deps_keeps_subscription_witness :
  let call := fun (_ : nat) (_ : value) => Normal VUndefined in
  let evs :=
    [AsyncValues.Render (AsyncValues.Source []) (Some [VNum 1]) None;
     AsyncValues.Emit 0 (VNum 7)] in
  let c := AsyncValues.run call evs AsyncValues.unmounted in
  let render := AsyncValues.Render (AsyncValues.Source [VNum 8]) (Some [VNum 1]) None in
  AsyncValues.state (AsyncValues.step call c render) = AsyncValues.state c
  /\ Some (fst (AsyncValues.useAsyncValues call (AsyncValues.Source [VNum 8])
                  (Some [VNum 1]) None c)) = Some (Normal (VNum 7)).
Proof.
  intros call evs c render.
  exact (useAsyncValues_same_deps_keeps_subscription call evs
           (AsyncValues.Source [VNum 8]) (Some [VNum 1]) None _ eq_refl eq_refl).
Defined.

(** X11. Unmounting forgets the value, whatever the component went
    through before (functions emitted and updaters that threw included):
    every subscription made so far is closed, and the first render after
    it, with an initial value and first emissions that are not
    functions, shows the last of the values the new stream emits while
    it is subscribed, or else the initial value configured for that
    render, not the value shown before the unmount. *)
Theorem useAsyncValues_remount_starts_over
    (call : nat -> value -> completion value)
    (evs : list AsyncValues.event) (observed : AsyncValues.ObservableInput)
    (deps : option (list value)) (cfg : option AsyncValues.config) :
  let c := AsyncValues.run call (evs ++ [AsyncValues.Unmount])
                           AsyncValues.unmounted in
  isFunction (AsyncValues.initial_of cfg) = false ->
  forallb (fun v => negb (isFunction v))
          (AsyncValues.emits_on_subscribe observed) = true ->
  AsyncValues.returned
    (AsyncValues.step call c (AsyncValues.Render observed deps cfg))
  = Some (AsyncValues.most_recent (AsyncValues.initial_of cfg)
            (AsyncValues.emits_on_subscribe observed))
  /\ forall sid,
      (sid < AsyncValues.next_subscription (AsyncValues.state c))%nat ->
      sid ∈ AsyncValues.closed (AsyncValues.state c).
Proof.
  intros c Hinit Hemits.
  pose proof (shaped_reachable call (evs ++ [AsyncValues.Unmount])) as Hsh.
  fold c in Hsh.
  assert (Hhook : AsyncValues.hook c = None).
  { unfold c. rewrite run_snoc. apply step_unmount_hook. }
  unfold AsyncValues.shaped in Hsh. rewrite Hhook in Hsh.
  destruct Hsh as [Hslot Hclosed]. split; [|intros sid; apply Hclosed].
  destruct c as [h [r n cl]].
  cbn [AsyncValues.hook AsyncValues.state AsyncValues.render
       AsyncValues.next_subscription AsyncValues.closed] in *. subst h.
  rewrite (step_render_mount call _ _ _ _ _ _ (AsyncValues.initial_of cfg))
    by (by rewrite ?Hinit).
  unfold AsyncValues.from_subscribe.
  cbn [snd AsyncValues.render AsyncValues.next_subscription AsyncValues.closed].
  destruct (emits_on_subscribe_fold call
              (AsyncValues.emits_on_subscribe observed) n
              (AsyncValues.initial_of cfg) (React.updates r) (S n) cl Hemits)
    as [u ->].
  { rewrite Hclosed. lia. }
  done.
Qed.

(** A component that showed [7] is unmounted and mounted again on a
    stream that emits ["again"] at once. *)
Lemma useAsyncValues_remount_starts_over_witness :
  let call := fun (_ : nat) (_ : value) => Normal VUndefined in
  let evs :=
    [AsyncValues.Render (AsyncValues.Source []) (Some []) None;
     AsyncValues.Emit 0 (VNum 7)] in
  let observed := AsyncValues.Source [VStr "again"] in
  let c := AsyncValues.run call (evs ++ [AsyncValues.Unmount])
                           AsyncValues.unmounted in
  isFunction (AsyncValues.initial_of None) = false
  /\ forallb (fun v => negb (isFunction v))
             (AsyncValues.emits_on_subscribe observed) = true
  /\ AsyncValues.returned
       (AsyncValues.step call c (AsyncValues.Render observed (Some []) None))
     = Some (VStr "again").
Proof.
  intros call evs observed c. split; [reflexivity|]. split; [reflexivity|].
  exact (proj1 (useAsyncValues_remount_starts_over call evs observed (Some [])
                  None eq_refl eq_refl)).
Defined.

(** ** The two hooks wired together *)

Section WiredFacts.
Import Cell.
Variable call : nat -> value -> completion value.

(** What a call of the setter hands to one subscriber: nothing, when the
    current value stays, or the new current value, once. *)
Lemma setValue_subscriber fuel v w c w' s :
  setValue call fuel v w = Some (c, w') ->
  NoDup (subscribers (cell w)) -> s ∈ subscribers (cell w) ->
  subscribers (cell w') = subscribers (cell w)
  /\ next_subscriber w' = next_subscriber w
  /\ (received s w' = received s w /\ getValue w' = getValue w
      \/ received s w' = received s w ++ [getValue w']).
Proof.
  intros Hset Hnd Hs.
  destruct (setValue_cases call _ _ _ _ _ Hset)
    as [->|[(p & _ & ->)|(u & _ & _ & ->)]].
  - auto.
  - rewrite then_setValue_received. unfold getValue.
    destruct (then_setValue_fields p w) as (-> & -> & _). auto.
  - split; [done|]. split; [done|]. right.
    by rewrite received_stored, filter_eq_nodup.
Qed.

Lemma step_subscriber fuel w ev w' s :
  step call fuel w ev = Some w' ->
  NoDup (subscribers (cell w)) -> s ∈ subscribers (cell w) ->
  (s < next_subscriber w)%nat -> ev <> Unsubscribes s ->
  NoDup (subscribers (cell w'))
  /\ s ∈ subscribers (cell w')
  /\ (s < next_subscriber w')%nat
  /\ (received s w' = received s w /\ getValue w' = getValue w
      \/ received s w' = received s w ++ [getValue w']).
Proof.
  intros Hstep Hnd Hs Hlt Hev. destruct ev as [v| |s'|p st|]; cbn [step] in Hstep.
  - destruct (setValue call fuel v w) as [[c w1]|] eqn:Hset; [|done].
    injection Hstep as <-.
    destruct (setValue_subscriber _ _ _ _ _ s Hset Hnd Hs) as (-> & -> & H).
    auto.
  - assert (w' = snd (subscribe w)) as -> by congruence.
    rewrite subscribe_received.
    rewrite decide_False by lia. rewrite app_nil_r. cbn.
    split; [|split; [|split; [lia|by left]]]; unfold set_add;
      case_bool_decide; try done.
    + apply NoDup_app. split; [done|]. split; [|apply NoDup_singleton].
      intros x Hx ->%list_elem_of_singleton. done.
    + apply elem_of_app. by left.
  - injection Hstep as <-. cbn. unfold set_delete.
    split; [by apply NoDup_filter|]. split; [|split; [done|by left]].
    apply list_elem_of_filter. split; [congruence|done].
  - injection Hstep as <-. unfold received, getValue.
    destruct (settle_fields p st w) as (-> & -> & ->).
    split; [done|]. split; [done|]. split; [done|]. by left.
  - unfold run_job in Hstep. destruct (jobs w) as [|v js].
    + injection Hstep as <-.
      split; [done|]. split; [done|]. split; [done|]. by left.
    + destruct (setValue call fuel v (set_jobs js w)) as [[c w1]|] eqn:Hset;
        [|done].
      injection Hstep as <-.
      destruct (setValue_subscriber _ _ _ _ _ s Hset Hnd Hs) as (-> & -> & H).
      auto.
Qed.

Lemma wired_mount init r :
  isFunction init = false -> Wired.wired (Wired.mount call init r).
Proof.
  intros Hinit. unfold Wired.wired, Wired.mount.
  cbn [subscribe fst snd Wired.store Wired.shown Wired.subscriber].
  split; [apply NoDup_singleton|]. split; [apply list_elem_of_here|].
  split; [cbn; lia|]. split; [exact Hinit|].
  change (Wired.handed _ _ _) with [init]. unfold AsyncValues.unmounted.
  rewrite (step_render_mount call _ _ _ _ _ _ VUndefined) by done.
  unfold AsyncValues.from_subscribe.
  cbn [snd AsyncValues.emits_on_subscribe AsyncValues.render
       AsyncValues.next_subscription AsyncValues.closed fold_left
       React.updates].
  destruct (subscriber_next_value call 0 init VUndefined 0 1 ∅ Hinit)
    as [u ->]; [by intros ?%not_elem_of_empty|].
  exists u. done.
Qed.

Lemma wired_step fuel a ev a' :
  Wired.step call fuel a ev = Some a' ->
  Wired.keeps_hook (Wired.subscriber a) ev = true ->
  Wired.wired a ->
  Wired.wired a' /\ Wired.subscriber a' = Wired.subscriber a.
Proof.
  intros Hstep Hkeep (Hnd & Hs & Hlt & Hfun & u & Hshown).
  destruct a as [w c s]. cbn [Wired.store Wired.shown Wired.subscriber] in *.
  subst c. destruct ev as [ev|]; cbn [Wired.step Wired.store Wired.shown
                                      Wired.subscriber] in Hstep.
  - destruct (step call fuel w ev) as [w'|] eqn:Hcell; [|done].
    injection Hstep as <-. split; [|done].
    assert (Hev : ev <> Unsubscribes s).
    { intros ->. cbn in Hkeep. by rewrite bool_decide_eq_true_2 in Hkeep. }
    destruct (step_subscriber _ _ _ _ s Hcell Hnd Hs Hlt Hev)
      as (Hnd' & Hs' & Hlt' & Hrec).
    pose proof (step_no_function call _ _ _ _ Hcell Hfun) as Hfun'.
    unfold Wired.wired. cbn [Wired.store Wired.shown Wired.subscriber].
    split; [done|]. split; [done|]. split; [done|]. split; [done|].
    unfold Wired.handed.
    destruct Hrec as [[Hsame Hval] | Hmore]; [rewrite Hsame, Hval|rewrite Hmore].
    + rewrite drop_all. cbn. by eexists.
    + rewrite drop_app_length.
      cbn [map AsyncValues.run fold_left AsyncValues.step AsyncValues.state
           AsyncValues.next_subscription AsyncValues.hook].
      rewrite (bool_decide_eq_true_2 (0 < 1)%nat) by lia.
      destruct (subscriber_next_value call 0 (getValue w') (getValue w) u 1 ∅
                  Hfun') as [u' ->]; [by intros ?%not_elem_of_empty|].
      by exists u'.
  - injection Hstep as <-. split; [|done].
    unfold Wired.wired. cbn [Wired.store Wired.shown Wired.subscriber].
    split; [done|]. split; [done|]. split; [done|]. split; [done|].
    by exists u.
Qed.

Lemma wired_run fuel evs : forall a a',
  Wired.run call fuel evs a = Some a' ->
  forallb (Wired.keeps_hook (Wired.subscriber a)) evs = true ->
  Wired.wired a -> Wired.wired a'.
Proof.
  induction evs as [|ev evs IH]; intros a a' Hrun Hkeep Ha; cbn in Hrun.
  - congruence.
  - cbn in Hkeep. apply andb_true_iff in Hkeep as [Hk Hkeep].
    destruct (Wired.step call fuel a ev) as [a1|] eqn:Hstep; [|done].
    destruct (wired_step _ _ _ _ Hstep Hk Ha) as [Ha1 Hsub].
    eapply IH; [exact Hrun| by rewrite Hsub |done].
Qed.
End WiredFacts.

(** X12. A component that feeds the observable of a cell created around
    a value that is not a function to [useAsyncValues], with that
    observable as the only dependency, renders the current value of the
    cell: after the mount and after everything that happens to the cell
    (calls of the setter, direct or functional, other subscribers that
    come and go, promises that settle, jobs that run) and every later
    render, the value the hook returns is the value the getter returns,
    and the hook has never subscribed a second time. (A cell created
    around a function hands that function to the setter of the host
    framework, which calls it as an updater.) *)
Theorem wired_hooks_render_current_value
    (call : nat -> value -> completion value) (fuel : nat) (init : value)
    (r : React.render_state) (evs : list Wired.event) (a : Wired.app) :
  isFunction init = false ->
  forallb (Wired.keeps_hook 0) evs = true ->
  Wired.run call fuel evs (Wired.mount call init r) = Some a ->
  AsyncValues.returned (Wired.shown a) = Some (Cell.getValue (Wired.store a))
  /\ AsyncValues.next_subscription (AsyncValues.state (Wired.shown a)) = 1%nat
  /\ AsyncValues.returned (Wired.shown (Wired.mount call init r)) = Some init.
Proof.
  intros Hinit Hkeep Hrun.
  destruct (wired_mount call init r Hinit) as (_ & _ & _ & _ & u0 & Hm).
  destruct (wired_run call fuel evs _ _ Hrun Hkeep (wired_mount call init r Hinit))
    as (_ & _ & _ & _ & u & ->).
  rewrite Hm. done.
Qed.

(** The test of the suite: three clicks on "Increment", with a render
    after each. *)
Lemma wired_hooks_render_current_value_witness :
  let call := fun (_ : nat) (x : value) =>
    match x with VNum n => Normal (VNum (n + 1)) | _ => Normal x end in
  let click := Wired.OnCell (Cell.Calls (VFun (UserFn 0))) in
  let evs := [click; Wired.Rerender; click; Wired.Rerender; click;
              Wired.Rerender] in
  isFunction (VNum 0) = false
  /\ exists a,
    Wired.run call 2 evs (Wired.mount call (VNum 0) (React.RenderState None 0))
    = Some a
    /\ Cell.getValue (Wired.store a) = VNum 3
    /\ AsyncValues.returned (Wired.shown a) = Some (Cell.getValue (Wired.store a)).
Proof.
  intros call click evs. split; [reflexivity|].
  eexists. split; [reflexivity|]. split; [reflexivity|].
  exact (proj1 (wired_hooks_render_current_value call 2 (VNum 0)
                  (React.RenderState None 0) evs _ eq_refl eq_refl eq_refl)).
Defined.

(** ** Functional updates in a row *)

Section Updates.
Import Cell.
Variable call : nat -> value -> completion value.

Lemma last_cons_default (a d : value) (l : list value) :
  List.last (a :: l) d = List.last l a.
Proof.
  revert a d. induction l as [|b l IH]; intros a d; [done|].
  change (List.last (a :: b :: l) d) with (List.last (b :: l) d).
  by rewrite (IH b d), (IH b a).
Qed.

(** X13. Functional updates compose: [k] calls of the setter in a row
    with a transformation that answers at once, the cell holding plain
    values throughout (no function, promise or [null]), leave the cell at
    the [k]-th iterate of the transformation on the starting value, and
    every subscriber is handed each intermediate value once, in order. *)
Theorem functional_updates_compose (fuel : nat) (f : nat)
    (g : value -> value) (s k : nat) (w : world) :
  (forall x, plain x = true -> call f x = Normal (g x) /\ plain (g x) = true) ->
  plain (getValue w) = true ->
  NoDup (subscribers (cell w)) ->
  s ∈ subscribers (cell w) ->
  exists w',
    run call (S (S fuel)) (repeat (Calls (VFun (UserFn f))) k) w = Some w'
    /\ getValue w' = List.last (iterates g (getValue w) k) (getValue w)
    /\ received s w' = received s w ++ iterates g (getValue w) k.
Proof.
  intros Hg. revert w. induction k as [|k IH]; intros w Hw Hnd Hs.
  - exists w. cbn. by rewrite app_nil_r.
  - destruct (Hg _ Hw) as [Hcall Hy].
    destruct (IH (stored (g (getValue w)) w) Hy Hnd Hs) as (w' & Hrun & Hval & Hrec).
    exists w'. cbn [repeat run step].
    rewrite (setValue_plain_result call fuel f w _ Hcall Hy).
    split; [exact Hrun|]. split.
    + rewrite Hval. cbn [iterates]. by rewrite last_cons_default.
    + rewrite Hrec, received_stored, filter_eq_nodup by done.
      cbn [iterates length repeat]. by rewrite <- app_assoc.
Qed.
End Updates.

(** The counter of the test suite: [n => n + 1], three times. *)
Lemma functional_updates_compose_witness :
  let g := fun (x : value) =>
    match x with VNum n => VNum (n + 1) | _ => x end in
  let call := fun (_ : nat) (x : value) => Normal (g x) in
  let w := snd (Cell.subscribe (Cell.create (VNum 0) (React.RenderState None 0))) in
  exists w',
    Cell.run call 2 (repeat (Cell.Calls (VFun (UserFn 0))) 3) w = Some w'
    /\ Cell.getValue w' = VNum 3
    /\ Cell.received 0%nat w' = [VNum 0; VNum 1; VNum 2; VNum 3].
Proof.
  intros g call w.
  refine (functional_updates_compose call 0 0 g 0 3 w _ eq_refl _ _).
  - intros x Hx. split; [done|]. by destruct x.
  - cbn. apply NoDup_singleton.
  - cbn. apply list_elem_of_here.
Defined.
